(** * GitMCP: the git repository manager server, [gitrepo_server.py]

    A shallow embedding of the security-relevant core of the server
    (path sanitization and confinement, the git command executor, the
    argument handling of the log, file-history, show-commit and search
    tools) together with the properties the specification states about
    it.

    Python strings are sequences of Unicode code points, so [str] is a
    list of code points; [len] is the list length.  The file system and
    the spawned git process are outside the program: they enter as the
    fields of a [World] record and every statement quantifies over them.
    Paths follow [pathlib] on a POSIX host (the default root is
    [/repos]). *)

From Stdlib Require Import List NArith ZArith Bool String Ascii Lia.
From Stdlib Require Import Sorted Permutation.
From Stdlib Require DecimalPos.
Import ListNotations.

Set Warnings "-abstract-large-number".

(** ** Python strings and the built-ins the server calls *)

Module Py.

Local Open Scope N_scope.

Definition char := N.
Definition str := list char.

(** Source literals are written as UTF-8 text and decoded to code points. *)
Fixpoint bytes_of (s : string) : list N :=
  match s with
  | EmptyString => []
  | String a t => N_of_ascii a :: bytes_of t
  end.

Fixpoint utf8_decode (bs : list N) : str :=
  match bs with
  | [] => []
  | b0 :: t0 =>
    if b0 <? 0x80 then b0 :: utf8_decode t0
    else
      match t0 with
      | [] => [b0]
      | b1 :: t1 =>
        if b0 <? 0xE0 then ((b0 - 0xC0) * 0x40 + (b1 - 0x80)) :: utf8_decode t1
        else
          match t1 with
          | [] => [b0; b1]
          | b2 :: t2 =>
            if b0 <? 0xF0 then
              ((b0 - 0xE0) * 0x1000 + (b1 - 0x80) * 0x40 + (b2 - 0x80))
                :: utf8_decode t2
            else
              match t2 with
              | [] => [b0; b1; b2]
              | b3 :: t3 =>
                ((b0 - 0xF0) * 0x40000 + (b1 - 0x80) * 0x1000
                 + (b2 - 0x80) * 0x40 + (b3 - 0x80)) :: utf8_decode t3
              end
          end
      end
  end.

Definition lit (s : string) : str := utf8_decode (bytes_of s).

Definition len (s : str) : nat := List.length s.

Definition eqb (a b : str) : bool :=
  if list_eq_dec N.eq_dec a b then true else false.

(** [not s] on a string: true exactly for the empty string. *)
Definition falsy (s : str) : bool :=
  match s with [] => true | _ :: _ => false end.

(** [Py_UNICODE_ISSPACE]: the characters [str.strip] and [str.split]
    treat as whitespace. *)
Definition isspace (c : char) : bool :=
  ((0x09 <=? c) && (c <=? 0x0D)) || ((0x1C <=? c) && (c <=? 0x20))
  || (c =? 0x85) || (c =? 0xA0) || (c =? 0x1680)
  || ((0x2000 <=? c) && (c <=? 0x200A))
  || (c =? 0x2028) || (c =? 0x2029) || (c =? 0x202F) || (c =? 0x205F)
  || (c =? 0x3000).

Fixpoint lstrip (s : str) : str :=
  match s with
  | [] => []
  | c :: t => if isspace c then lstrip t else s
  end.

Definition rstrip (s : str) : str := rev (lstrip (rev s)).

Definition strip (s : str) : str := rstrip (lstrip s).

(** [s.split()] with no separator: maximal runs of non-whitespace. *)
Fixpoint split_from (cur : str) (s : str) : list str :=
  match s with
  | [] => match cur with [] => [] | _ => [rev cur] end
  | c :: t =>
    if isspace c then
      match cur with
      | [] => split_from [] t
      | _ => rev cur :: split_from [] t
      end
    else split_from (c :: cur) t
  end.

Definition split (s : str) : list str := split_from [] s.

Fixpoint startswith (s prefix : str) {struct prefix} : bool :=
  match prefix, s with
  | [], _ => true
  | _ :: _, [] => false
  | p :: ps, c :: cs => (c =? p) && startswith cs ps
  end.

(** [needle in s]. *)
Fixpoint contains (s needle : str) : bool :=
  startswith s needle ||
  match s with
  | [] => false
  | _ :: t => contains t needle
  end.

(** [s.replace(old, new)]: left to right, occurrences do not overlap.
    [skip] counts the characters of a matched occurrence still to drop. *)
Fixpoint replace_from (old new : str) (skip : nat) (s : str) : str :=
  match s with
  | [] => []
  | c :: t =>
    match skip with
    | S k => replace_from old new k t
    | O =>
      if startswith s old
      then new ++ replace_from old new (Nat.pred (len old)) t
      else c :: replace_from old new O t
    end
  end.

Definition replace (s old new : str) : str :=
  match old with
  | [] => new ++ flat_map (fun c => c :: new) s
  | _ :: _ => replace_from old new O s
  end.

(** [re.sub(r'[...]', '', s)] for a one-character class: the characters
    of the class are dropped. *)
Definition re_sub_class (class : char -> bool) (s : str) : str :=
  filter (fun c => negb (class c)) s.

(** [s[:n]]. *)
Definition slice_to (n : nat) (s : str) : str := firstn n s.

(** [str(i)] and the [{i}] of an f-string, for an integer. *)
Fixpoint uint_chars (u : Decimal.uint) : str :=
  match u with
  | Decimal.Nil => []
  | Decimal.D0 u => 0x30 :: uint_chars u
  | Decimal.D1 u => 0x31 :: uint_chars u
  | Decimal.D2 u => 0x32 :: uint_chars u
  | Decimal.D3 u => 0x33 :: uint_chars u
  | Decimal.D4 u => 0x34 :: uint_chars u
  | Decimal.D5 u => 0x35 :: uint_chars u
  | Decimal.D6 u => 0x36 :: uint_chars u
  | Decimal.D7 u => 0x37 :: uint_chars u
  | Decimal.D8 u => 0x38 :: uint_chars u
  | Decimal.D9 u => 0x39 :: uint_chars u
  end.

Definition str_of_int (i : Z) : str :=
  match Z.to_int i with
  | Decimal.Pos u => uint_chars u
  | Decimal.Neg u => 0x2D :: uint_chars u
  end.

Definition str_of_nat (n : nat) : str := str_of_int (Z.of_nat n).

(** *** [int(s)]

    The parts of the interpreter the conversion depends on: the Unicode
    decimal-digit table outside ASCII ([Py_UNICODE_TODECIMAL]), the case
    mapping behind [str.lower], and the limit on the number of digits
    [int] accepts (4300 by default since Python 3.11, 0 for no limit;
    texts of at most 640 digits are never refused). *)
Record Runtime := {
  unicode_decimal : char -> option N;
  str_lower : str -> str;
  int_max_str_digits : N
}.

Section Int.
Variable rt : Runtime.

(** [_PyUnicode_TransformDecimalAndSpaceToASCII]: non-ASCII spaces become
    a blank, non-ASCII decimal digits their ASCII digit; the first other
    non-ASCII character becomes [?] and ends the buffer. *)
Fixpoint transform_decimal_and_space (s : str) : str :=
  match s with
  | [] => []
  | c :: t =>
    if c <? 127 then c :: transform_decimal_and_space t
    else if isspace c then 0x20 :: transform_decimal_and_space t
    else
      match unicode_decimal rt c with
      | Some d => (0x30 + d) :: transform_decimal_and_space t
      | None => [0x3F]
      end
  end.

(** [Py_ISSPACE]: the ASCII whitespace [PyLong_FromString] skips. *)
Definition c_isspace (c : char) : bool :=
  ((0x09 <=? c) && (c <=? 0x0D)) || (c =? 0x20).

Fixpoint skip_c_space (s : str) : str :=
  match s with
  | [] => []
  | c :: t => if c_isspace c then skip_c_space t else s
  end.

Definition digit_value (c : char) : option Z :=
  if (0x30 <=? c) && (c <=? 0x39) then Some (Z.of_N (c - 0x30)) else None.

(** Digits with single underscores between them; returns the value, the
    number of digits and the unread rest. *)
Fixpoint scan_digits (prev_underscore : bool) (acc : Z) (ndigits : N)
    (s : str) : option (Z * N * str) :=
  match s with
  | [] => if prev_underscore then None else Some (acc, ndigits, [])
  | c :: t =>
    if c =? 0x5F then
      if prev_underscore then None else scan_digits true acc ndigits t
    else
      match digit_value c with
      | Some d => scan_digits false (acc * 10 + d)%Z (ndigits + 1) t
      | None => if prev_underscore then None else Some (acc, ndigits, s)
      end
  end.

Definition long_from_string (s : str) : option Z :=
  let s1 := skip_c_space s in
  let '(negative, s2) :=
    match s1 with
    | 0x2B :: r => (false, r)
    | 0x2D :: r => (true, r)
    | _ => (false, s1)
    end in
  match s2 with
  | 0x5F :: _ => None
  | _ =>
    match scan_digits false 0%Z 0 s2 with
    | None => None
    | Some (v, n, rest) =>
      if n =? 0 then None
      else if (640 <? n) && (0 <? int_max_str_digits rt)
              && (int_max_str_digits rt <? n)
      then None
      else
        match skip_c_space rest with
        | [] => Some (if negative then (- v)%Z else v)
        | _ :: _ => None
        end
    end
  end.

(** [int(s)]: [None] stands for [ValueError]. *)
Definition int (s : str) : option Z :=
  long_from_string
    (if forallb (fun c => c <? 128) s then s
     else transform_decimal_and_space s).

End Int.

End Py.

Import Py.

Definition LF : str := [0x0A]%N.
Definition DQUOTE : str := [0x22]%N.
Definition BACKSLASH : str := [0x5C]%N.
Definition SLASH : char := 0x2F%N.

(** ** [pathlib] on a POSIX host *)

Module Pathlib.

(** A parsed path: the root ([], [/] or [//]) and the segments. *)
Record PurePath := {
  root : str;
  tail : list str
}.

(** [s.split('/')]: every separator cuts, empty pieces are kept. *)
Fixpoint split_sep (cur : str) (s : str) : list str :=
  match s with
  | [] => [rev cur]
  | c :: t =>
    if N.eqb c SLASH then rev cur :: split_sep [] t
    else split_sep (c :: cur) t
  end.

(** [posixpath.splitroot]: exactly two leading slashes are kept as a
    root of their own, three or more collapse to one. *)
Definition splitroot (p : str) : str * str :=
  match p with
  | 0x2F%N :: rest =>
    match rest with
    | 0x2F%N :: rest2 =>
      match rest2 with
      | 0x2F%N :: _ => ([SLASH], rest)
      | _ => ([SLASH; SLASH], rest2)
      end
    | _ => ([SLASH], rest)
    end
  | _ => ([], p)
  end.

Definition is_segment (x : str) : bool :=
  negb (falsy x) && negb (Py.eqb x (lit ".")).

(** [Path(p)]: empty and [.] segments are dropped, [..] is kept. *)
Definition Path (p : str) : PurePath :=
  let '(r, rel) := splitroot p in
  {| root := r; tail := filter is_segment (split_sep [] rel) |}.

Fixpoint join_sep (parts : list str) : str :=
  match parts with
  | [] => []
  | [x] => x
  | x :: rest => x ++ SLASH :: join_sep rest
  end.

(** [str(path)]. *)
Definition str_of_path (p : PurePath) : str :=
  match root p ++ join_sep (tail p) with
  | [] => lit "."
  | s => s
  end.

(** [path / key]: an absolute [key] replaces the path, a relative one
    appends its segments. *)
Definition joinpath (p : PurePath) (key : str) : PurePath :=
  match key with
  | 0x2F%N :: _ => Path key
  | _ => {| root := root p; tail := tail p ++ tail (Path key) |}
  end.

Fixpoint is_prefix (a b : list str) : bool :=
  match a, b with
  | [], _ => true
  | _ :: _, [] => false
  | x :: a', y :: b' => Py.eqb x y && is_prefix a' b'
  end.

(** Containment by segments: [p] is [base] or lies below it. *)
Definition within (base p : PurePath) : bool :=
  Py.eqb (root base) (root p) && is_prefix (tail base) (tail p).

(** [p] lies strictly below [base]. *)
Definition descendant (base p : PurePath) : bool :=
  within base p && (List.length (tail base) <? List.length (tail p))%nat.

End Pathlib.

Import Pathlib.

(** ** The world outside the program *)

(** What [subprocess.run(cmd, capture_output=True, text=True,
    timeout=...)] does: it returns the completed process, raises
    [TimeoutExpired] after killing the child, or raises another exception
    (the binary is missing, the output does not decode). *)
Inductive Completion :=
| Completed (stdout stderr : str) (returncode : Z)
| TimeoutExpired
| Failed (message : str).

Record Invocation := {
  argv : list str;
  timeout_of : Z
}.

(** The processes spawned so far, oldest first. *)
Definition Trace := list Invocation.

Record World := {
  runtime : Runtime;
  (** [os.environ.get("GIT_REPOS_PATH", "/repos")] *)
  REPOS_BASE_PATH : str;
  (** [Path.resolve()]; [None] when it raises *)
  resolve : PurePath -> option PurePath;
  (** [os.path.isdir] *)
  isdir : str -> bool;
  (** [Path.exists()]; [None] when [stat] fails with an error that
      [exists] re-raises (permission denied) *)
  stat_exists : PurePath -> option bool;
  (** the outcome of a spawned process, given the earlier ones *)
  subprocess_run : Trace -> list str -> Z -> Completion
}.

(** ** Computations that spawn processes and may raise *)

Inductive Exn := OSError.

Inductive Result (A : Type) :=
| Ok (a : A)
| Raise (e : Exn).

Arguments Ok {A} a.
Arguments Raise {A} e.

Definition Proc (A : Type) := Trace -> Result A * Trace.

Definition ret {A : Type} (a : A) : Proc A := fun tr => (Ok a, tr).

Definition bind {A B : Type} (m : Proc A) (k : A -> Proc B) : Proc B :=
  fun tr =>
    match m tr with
    | (Ok a, tr') => k a tr'
    | (Raise e, tr') => (Raise e, tr')
    end.

Notation "x <- m ;; k" := (bind m (fun x => k))
  (at level 61, m at next level, right associativity).

Definition path_exists (w : World) (p : PurePath) : Proc bool :=
  fun tr =>
    match stat_exists w p with
    | Some b => (Ok b, tr)
    | None => (Raise OSError, tr)
    end.

Definition spawn (w : World) (cmd : list str) (timeout : Z) : Proc Completion :=
  fun tr =>
    (Ok (subprocess_run w tr cmd timeout),
     tr ++ [{| argv := cmd; timeout_of := timeout |}]).

(** ** [gitrepo_server.py] *)

Definition MAX_OUTPUT_LENGTH : nat := 10000.
Definition GIT_TIMEOUT : Z := 30.

(** The class [[;&|`$(){}]]. *)
Definition dangerous (c : char) : bool :=
  existsb (N.eqb c) (lit ";&|`$(){}").

Definition sanitize_path (path : str) : str :=
  if falsy path || falsy (strip path) then []
  else
    let sanitized := re_sub_class dangerous (strip path) in
    let sanitized := replace sanitized (lit "..") [] in
    sanitized.

Definition get_repo_path (w : World) (repo_name : str) : str :=
  if falsy repo_name || falsy (strip repo_name) then []
  else
    let sanitized := sanitize_path repo_name in
    if falsy sanitized then []
    else
      let repo_path := joinpath (Path (REPOS_BASE_PATH w)) sanitized in
      match resolve w repo_path with
      | None => []
      | Some repo_path =>
        match resolve w (Path (REPOS_BASE_PATH w)) with
        | None => []
        | Some base_path =>
          if negb (startswith (str_of_path repo_path) (str_of_path base_path))
          then []
          else str_of_path repo_path
        end
      end.

(** Lines 88 to 91 of [run_git_command]: standard output unless it is
    empty, cut to the cap with the size marker. *)
Definition captured (stdout stderr : str) : str :=
  if falsy stdout then stderr else stdout.

Definition bounded (output : str) : str :=
  if (MAX_OUTPUT_LENGTH <? len output)%nat
  then slice_to MAX_OUTPUT_LENGTH output
       ++ LF ++ LF ++ lit "... [Output truncated. Total: "
       ++ str_of_nat (len output) ++ lit " chars]"
  else output.

Definition run_git_command (w : World) (repo_path args : str) (timeout : Z)
  : Proc str :=
  if falsy repo_path || negb (isdir w repo_path)
  then ret (lit "❌ Error: Invalid repository path")
  else
    let git_dir := joinpath (Path repo_path) (lit ".git") in
    git_dir_exists <- path_exists w git_dir ;;
    if negb git_dir_exists
    then ret (lit "❌ Error: Not a git repository")
    else
      let cmd := [lit "git"; lit "-C"; repo_path] ++ split args in
      result <- spawn w cmd timeout ;;
      match result with
      | Completed stdout stderr returncode =>
        let output := bounded (captured stdout stderr) in
        if (returncode =? 0)%Z
        then ret (if falsy (strip output)
                  then lit "✅ Command completed successfully"
                  else output)
        else ret (lit "⚠️ Git command completed with status "
                  ++ str_of_int returncode ++ lit ":" ++ LF ++ output)
      | TimeoutExpired =>
        ret (lit "⏱️ Command timed out after " ++ str_of_int timeout
             ++ lit " seconds")
      | Failed message =>
        ret (lit "❌ Error executing git command: " ++ message)
      end.

Definition truncate_output (output : str) : str :=
  if (MAX_OUTPUT_LENGTH <? len output)%nat
  then slice_to MAX_OUTPUT_LENGTH output
       ++ LF ++ LF ++ lit "... [Truncated from "
       ++ str_of_nat (len output) ++ lit " chars]"
  else output.

(** The [try] block of [repo_log] (lines 171 to 176) and, word for word,
    of [repo_file_history] (lines 306 to 311). *)
Definition limit_int (rt : Runtime) (limit : str) : Z :=
  match (if falsy (strip limit) then Some 10%Z else int rt limit) with
  | Some n => if (n <? 1)%Z || (100 <? n)%Z then 10%Z else n
  | None => 10%Z
  end.

Definition repo_log (w : World) (repo_name limit : str) : Proc str :=
  if falsy (strip repo_name)
  then ret (lit "❌ Error: Repository name is required")
  else
    let repo_path := get_repo_path w repo_name in
    if falsy repo_path
    then ret (lit "❌ Error: Invalid repository name")
    else
      let n := limit_int (runtime w) limit in
      result <- run_git_command w repo_path
                  (lit "log --oneline -n " ++ str_of_int n) GIT_TIMEOUT ;;
      ret (lit "📜 Last " ++ str_of_int n ++ lit " commits for "
           ++ repo_name ++ lit ":" ++ LF ++ LF ++ result).

(** The class [[^a-fA-F0-9]]. *)
Definition not_hex (c : char) : bool :=
  negb (((0x61 <=? c) && (c <=? 0x66)) || ((0x41 <=? c) && (c <=? 0x46))
        || ((0x30 <=? c) && (c <=? 0x39)))%N.

Definition repo_show_commit (w : World) (repo_name commit_hash : str)
  : Proc str :=
  if falsy (strip repo_name)
  then ret (lit "❌ Error: Repository name is required")
  else if falsy (strip commit_hash)
  then ret (lit "❌ Error: Commit hash is required")
  else
    let repo_path := get_repo_path w repo_name in
    if falsy repo_path
    then ret (lit "❌ Error: Invalid repository name")
    else
      let sanitized_hash := re_sub_class not_hex (strip commit_hash) in
      if falsy sanitized_hash
      then ret (lit "❌ Error: Invalid commit hash format")
      else
        result <- run_git_command w repo_path
                    (lit "show " ++ sanitized_hash) GIT_TIMEOUT ;;
        ret (lit "📝 Commit " ++ sanitized_hash ++ lit " in " ++ repo_name
             ++ lit ":" ++ LF ++ LF ++ result).

Definition repo_file_history (w : World) (repo_name file_path limit : str)
  : Proc str :=
  if falsy (strip repo_name)
  then ret (lit "❌ Error: Repository name is required")
  else if falsy (strip file_path)
  then ret (lit "❌ Error: File path is required")
  else
    let repo_path := get_repo_path w repo_name in
    if falsy repo_path
    then ret (lit "❌ Error: Invalid repository name")
    else
      let sanitized_file := sanitize_path file_path in
      if falsy sanitized_file
      then ret (lit "❌ Error: Invalid file path")
      else
        let n := limit_int (runtime w) limit in
        result <- run_git_command w repo_path
                    (lit "log --oneline -n " ++ str_of_int n ++ lit " -- "
                     ++ sanitized_file) GIT_TIMEOUT ;;
        ret (lit "📜 History for " ++ sanitized_file ++ lit " in "
             ++ repo_name ++ lit ":" ++ LF ++ LF ++ result).

Definition repo_search (w : World) (repo_name search_term : str) : Proc str :=
  if falsy (strip repo_name)
  then ret (lit "❌ Error: Repository name is required")
  else if falsy (strip search_term)
  then ret (lit "❌ Error: Search term is required")
  else
    let repo_path := get_repo_path w repo_name in
    if falsy repo_path
    then ret (lit "❌ Error: Invalid repository name")
    else
      let escaped_term :=
        replace (strip search_term) DQUOTE (BACKSLASH ++ DQUOTE) in
      result <- run_git_command w repo_path
                  (lit "grep -n " ++ DQUOTE ++ escaped_term ++ DQUOTE)
                  GIT_TIMEOUT ;;
      if contains (str_lower (runtime w) result) (lit "fatal:")
         || falsy (strip result)
      then ret (lit "🔍 No matches found for '" ++ search_term ++ lit "' in "
                ++ repo_name)
      else ret (lit "🔍 Search results for '" ++ search_term ++ lit "' in "
                ++ repo_name ++ lit ":" ++ LF ++ LF ++ truncate_output result).

(** ** The remaining tools

    Built-ins they need beyond the ones above. *)

(** [s.split(sep)] for a one-character separator: every separator cuts,
    empty pieces are kept. *)
Fixpoint split_on (sep : char) (cur : str) (s : str) : list str :=
  match s with
  | [] => [rev cur]
  | c :: t =>
    if N.eqb c sep then rev cur :: split_on sep [] t
    else split_on sep (c :: cur) t
  end.

(** [sep.join(parts)]. *)
Fixpoint join (sep : str) (parts : list str) : str :=
  match parts with
  | [] => []
  | [x] => x
  | x :: rest => x ++ sep ++ join sep rest
  end.




(** [try: m except Exception as e: handler(e)]. *)
Definition catch {A : Type} (m : Proc A) (handler : Exn -> Proc A) : Proc A :=
  fun tr =>
    match m tr with
    | (Ok a, tr') => (Ok a, tr')
    | (Raise e, tr') => handler e tr'
    end.

(** What [list_repos] and the [except] clauses ask of the host beyond
    [World]: the entry names of a directory in listing order
    ([Path.iterdir], [None] when it raises), [Path.is_dir] ([None] when
    it re-raises) and the text [str(e)] of a caught exception. *)
Record Host := {
  iterdir : PurePath -> option (list str);
  is_dir : PurePath -> option bool;
  str_of_exn : Exn -> str
}.




Definition repo_status (w : World) (repo_name : str) : Proc str :=
  if falsy (strip repo_name)
  then ret (lit "❌ Error: Repository name is required")
  else
    let repo_path := get_repo_path w repo_name in
    if falsy repo_path
    then ret (lit "❌ Error: Invalid repository name")
    else
      result <- run_git_command w repo_path (lit "status") GIT_TIMEOUT ;;
      ret (lit "📊 Status for " ++ repo_name ++ lit ":" ++ LF ++ LF ++ result).

Definition repo_branches (w : World) (repo_name : str) : Proc str :=
  if falsy (strip repo_name)
  then ret (lit "❌ Error: Repository name is required")
  else
    let repo_path := get_repo_path w repo_name in
    if falsy repo_path
    then ret (lit "❌ Error: Invalid repository name")
    else
      result <- run_git_command w repo_path (lit "branch -a") GIT_TIMEOUT ;;
      ret (lit "🌿 Branches for " ++ repo_name ++ lit ":" ++ LF ++ LF ++ result).

Definition repo_diff (w : World) (repo_name file_path : str) : Proc str :=
  if falsy (strip repo_name)
  then ret (lit "❌ Error: Repository name is required")
  else
    let repo_path := get_repo_path w repo_name in
    if falsy repo_path
    then ret (lit "❌ Error: Invalid repository name")
    else
      let report (result target : str) : Proc str :=
        if falsy (strip result)
           || Py.eqb result (lit "✅ Command completed successfully")
        then ret (lit "✅ No changes in " ++ target)
        else ret (lit "📝 Changes in " ++ repo_name ++ lit " (" ++ target
                  ++ lit "):" ++ LF ++ LF ++ result) in
      if negb (falsy (strip file_path))
      then
        let sanitized_file := sanitize_path file_path in
        if falsy sanitized_file
        then ret (lit "❌ Error: Invalid file path")
        else
          result <- run_git_command w repo_path
                      (lit "diff " ++ sanitized_file) GIT_TIMEOUT ;;
          report result (lit "file " ++ sanitized_file)
      else
        result <- run_git_command w repo_path (lit "diff") GIT_TIMEOUT ;;
        report result (lit "repository").

Definition repo_remote (w : World) (repo_name : str) : Proc str :=
  if falsy (strip repo_name)
  then ret (lit "❌ Error: Repository name is required")
  else
    let repo_path := get_repo_path w repo_name in
    if falsy repo_path
    then ret (lit "❌ Error: Invalid repository name")
    else
      result <- run_git_command w repo_path (lit "remote -v") GIT_TIMEOUT ;;
      if falsy (strip result)
         || Py.eqb result (lit "✅ Command completed successfully")
      then ret (lit "🌐 No remotes configured for " ++ repo_name)
      else ret (lit "🌐 Remotes for " ++ repo_name ++ lit ":" ++ LF ++ LF
                ++ result).

Definition repo_current_branch (w : World) (repo_name : str) : Proc str :=
  if falsy (strip repo_name)
  then ret (lit "❌ Error: Repository name is required")
  else
    let repo_path := get_repo_path w repo_name in
    if falsy repo_path
    then ret (lit "❌ Error: Invalid repository name")
    else
      result <- run_git_command w repo_path (lit "branch --show-current")
                  GIT_TIMEOUT ;;
      if negb (falsy (strip result))
         && negb (startswith result (lit "❌"))
         && negb (startswith result (lit "⚠️"))
      then ret (lit "🌿 Current branch: " ++ strip result)
      else ret result.

(** [[line for line in text.split('\n') if line.strip()]]. *)
Definition nonblank_lines (text : str) : list str :=
  filter (fun line => negb (falsy (strip line))) (split_on 0x0A%N [] text).

Definition repo_stats (w : World) (h : Host) (repo_name : str) : Proc str :=
  if falsy (strip repo_name)
  then ret (lit "❌ Error: Repository name is required")
  else
    let repo_path := get_repo_path w repo_name in
    if falsy repo_path
    then ret (lit "❌ Error: Invalid repository name")
    else
      catch
        (commit_count <- run_git_command w repo_path
                           (lit "rev-list --count HEAD") GIT_TIMEOUT ;;
         contributors <- run_git_command w repo_path
                           (lit "shortlog -sn --all") GIT_TIMEOUT ;;
         let contributor_lines := nonblank_lines contributors in
         let contributor_count := List.length contributor_lines in
         branches <- run_git_command w repo_path (lit "branch -a")
                       GIT_TIMEOUT ;;
         let branch_lines := nonblank_lines branches in
         let branch_count := List.length branch_lines in
         ret (lit "📊 Repository Statistics for " ++ repo_name ++ lit ":"
              ++ LF ++ LF
              ++ lit "📝 Total Commits: " ++ strip commit_count ++ LF
              ++ lit "👥 Contributors: " ++ str_of_nat contributor_count ++ LF
              ++ lit "🌿 Branches: " ++ str_of_nat branch_count ++ LF
              ++ LF
              ++ lit "Top Contributors:" ++ LF
              ++ join LF (firstn 5 contributor_lines)))
        (fun e => ret (lit "❌ Error: " ++ str_of_exn h e)).

(** ** A concrete world: no symbolic links, working directory [/]

    Used to run the definitions on explicit inputs. *)

Module Demo.

(** An interpreter reduced to ASCII: no decimal digit outside ASCII and
    lower-casing of [A-Z] only.  It stands for CPython on ASCII texts,
    the only ones it is run on; the general statements quantify over the
    runtime. *)
Definition ascii_lower (c : char) : char :=
  if ((0x41 <=? c) && (c <=? 0x5A))%N then (c + 0x20)%N else c.

Definition ascii_runtime : Runtime := {|
  unicode_decimal := fun _ => None;
  str_lower := map ascii_lower;
  int_max_str_digits := 4300
|}.

(** Without symbolic links [resolve] is lexical: [..] pops a segment (the
    root is its own parent), the result is rooted at a single [/]
    whatever the root of the path was, and an embedded NUL raises
    [ValueError].  The working directory of this host is [/], so a
    relative path is taken from there. *)
Fixpoint collapse (stack : list str) (parts : list str) : list str :=
  match parts with
  | [] => rev stack
  | p :: rest =>
    if Py.eqb p (lit "..") then collapse (List.tl stack) rest
    else collapse (p :: stack) rest
  end.

Definition plain_resolve (p : PurePath) : option PurePath :=
  if existsb (existsb (N.eqb 0)) (tail p) then None
  else Some {| root := [SLASH]; tail := collapse [] (tail p) |}.

(** The directories that exist, by canonical name. *)
Definition directories : list str :=
  map lit ["/"; "/repos"; "/repos/demo"; "/repos/demo/.git";
           "/repos-private"; "/repos-private/.git"]%string.

Definition is_directory (p : PurePath) : bool :=
  match plain_resolve p with
  | Some q => existsb (Py.eqb (str_of_path q)) directories
  | None => false
  end.

Definition world (git : Trace -> list str -> Z -> Completion) : World := {|
  runtime := ascii_runtime;
  REPOS_BASE_PATH := lit "/repos";
  resolve := plain_resolve;
  isdir := fun p => negb (falsy p) && is_directory (Path p);
  stat_exists := fun p => Some (is_directory p);
  subprocess_run := git
|}.

(** A git that prints nothing and succeeds. *)
Definition quiet : Trace -> list str -> Z -> Completion :=
  fun _ _ _ => Completed [] [] 0.

(** A git whose answer is fixed. *)
Definition answers (c : Completion) : Trace -> list str -> Z -> Completion :=
  fun _ _ _ => c.

End Demo.

(** The host side of the concrete world: the listing of [/repos] and the
    directory test of [Demo]. *)
Module DemoHost.

Definition host (entries : list str) : Host := {|
  iterdir := fun _ => Some entries;
  is_dir := fun p => Some (Demo.is_directory p);
  str_of_exn := fun _ => lit "[Errno 13] Permission denied"
|}.






End DemoHost.

(** A host on which [/repos/locked] is a directory the server may not
    search: [os.path.isdir] answers true for it, and the [stat] behind
    [Path.exists] on its [.git] entry fails with permission denied, which
    [exists] re-raises. *)
Module Locked.

Definition world : World := {|
  runtime := Demo.ascii_runtime;
  REPOS_BASE_PATH := lit "/repos";
  resolve := Demo.plain_resolve;
  isdir := fun p =>
    Py.eqb p (lit "/repos/locked") || isdir (Demo.world Demo.quiet) p;
  stat_exists := fun p =>
    if Py.eqb (str_of_path p) (lit "/repos/locked/.git") then None
    else Some (Demo.is_directory p);
  subprocess_run := Demo.quiet
|}.

End Locked.


(** The number a text of decimal digits denotes; [None] for the empty
    text and for a text with another character. *)
Fixpoint decimal_value_from (acc : N) (s : str) : option N :=
  match s with
  | [] => Some acc
  | c :: t =>
    if ((0x30 <=? c) && (c <=? 0x39))%N
    then decimal_value_from (10 * acc + (c - 0x30))%N t
    else None
  end.

Definition decimal_value (s : str) : option N :=
  match s with
  | [] => None
  | _ :: _ => decimal_value_from 0 s
  end.

(** The hexadecimal characters of a text, in their order: what the
    specification asks the commit hash to be filtered to. *)
Definition is_hex_digit (c : char) : bool :=
  existsb (N.eqb c) (lit "0123456789abcdefABCDEF").

Definition hex_characters (s : str) : str := filter is_hex_digit s.

(** ** Vocabulary of the statements *)

(** The argument vector of [git -C repo_path ...]. *)
Definition git_call (repo_path : str) (tokens : list str) : Invocation :=
  {| argv := [lit "git"; lit "-C"; repo_path] ++ tokens;
     timeout_of := GIT_TIMEOUT |}.

(** The Path Resolver accepts [repo_name] and answers [repo_path]. *)
Definition accepted (w : World) (repo_name repo_path : str) : Prop :=
  get_repo_path w repo_name = repo_path /\ repo_path <> [].

(** The entry condition of the Command Executor. *)
Definition is_repository (w : World) (repo_path : str) : Prop :=
  repo_path <> [] /\ isdir w repo_path = true
  /\ stat_exists w (joinpath (Path repo_path) (lit ".git")) = Some true.

(** [int] rejects the text, or its value is outside 1..100. *)
Definition unusable_limit (rt : Runtime) (limit : str) : Prop :=
  int rt limit = None
  \/ exists v, int rt limit = Some v /\ (v < 1 \/ 100 < v)%Z.

(** The processes a handler adds to the trace are all [git -C repo_path],
    and there are some only if [repo_path] is a repository. *)
Definition spawns_git_in (w : World) (repo_path : str) (tr tr' : Trace) : Prop :=
  exists extra,
    tr' = tr ++ extra
    /\ Forall (fun inv => exists tokens, inv = git_call repo_path tokens) extra
    /\ (extra <> [] -> is_repository w repo_path).

(** A computation is confined to [repo_path]: from every trace, what it
    spawns is [git -C repo_path] on a repository. *)
Definition confined (w : World) (repo_path : str) {A : Type} (m : Proc A)
  : Prop :=
  forall tr, spawns_git_in w repo_path tr (snd (m tr)).

(** The text [run_git_command] returns for what the process did (lines
    88 to 102). *)
Definition report_of (timeout : Z) (c : Completion) : str :=
  match c with
  | Completed stdout stderr returncode =>
    if (returncode =? 0)%Z
    then if falsy (strip (bounded (captured stdout stderr)))
         then lit "✅ Command completed successfully"
         else bounded (captured stdout stderr)
    else lit "⚠️ Git command completed with status "
         ++ str_of_int returncode ++ lit ":" ++ LF
         ++ bounded (captured stdout stderr)
  | TimeoutExpired =>
    lit "⏱️ Command timed out after " ++ str_of_int timeout ++ lit " seconds"
  | Failed message => lit "❌ Error executing git command: " ++ message
  end.


(** The second step of [sanitize_path] on its own. *)
Definition drop_dotdot (s : str) : str := replace_from (lit "..") [] 0 s.

(** ** Basic facts *)

Lemma falsy_true (s : str) : falsy s = true <-> s = [].
Proof. destruct s; simpl; split; congruence. Qed.

Lemma falsy_false (s : str) : falsy s = false <-> s <> [].
Proof. destruct s; simpl; split; congruence. Qed.

Lemma startswith_refl (s : str) : startswith s s = true.
Proof.
  induction s as [|c s IH]; simpl; [reflexivity|].
  now rewrite N.eqb_refl, IH.
Qed.

Lemma str_of_path_nonempty (p : PurePath) : str_of_path p <> [].
Proof.
  unfold str_of_path. destruct (root p ++ join_sep (tail p)); discriminate.
Qed.

Lemma joinpath_dot (p : PurePath) : joinpath p (lit ".") = p.
Proof.
  destruct p as [r t]. unfold joinpath. simpl.
  now rewrite app_nil_r.
Qed.

Example lit_decodes_utf8 :
  lit "❌ E" = [0x274C; 0x20; 0x45]%N
  /\ lit "⚠️" = [0x26A0; 0xFE0F]%N
  /\ lit "📝" = [0x1F4DD]%N.
Proof. repeat split; reflexivity. Qed.

Example sanitize_path_sample :
  sanitize_path (lit "  a;b..c/../$(x)...  ") = lit "abc//x.".
Proof. reflexivity. Qed.

Example int_samples :
  int Demo.ascii_runtime (lit " +5_0 ") = Some 50%Z
  /\ int Demo.ascii_runtime (lit "-7") = Some (-7)%Z
  /\ int Demo.ascii_runtime (lit "5__0") = None
  /\ int Demo.ascii_runtime (lit "50.0") = None
  /\ int Demo.ascii_runtime (lit "") = None.
Proof. repeat split; reflexivity. Qed.

Example degraded_result_sample :
  fst (run_git_command
         (Demo.world (Demo.answers (Completed [] (lit "fatal: bad revision") 128)))
         (lit "/repos/demo") (lit "show HEAD~9") GIT_TIMEOUT [])
  = Ok (lit "⚠️ Git command completed with status 128:" ++ LF
        ++ lit "fatal: bad revision").
Proof. reflexivity. Qed.

Example timeout_sample :
  fst (run_git_command (Demo.world (Demo.answers TimeoutExpired))
         (lit "/repos/demo") (lit "status") GIT_TIMEOUT [])
  = Ok (lit "⏱️ Command timed out after 30 seconds").
Proof. reflexivity. Qed.

(** *** Sanitization

    The two facts the data model asks of a sanitized name: no character
    of the dangerous class is left, and no two dots are adjacent. *)

Lemma replace_from_subset (old : str) (k : nat) (s : str) (c : char) :
  In c (replace_from old [] k s) -> In c s.
Proof.
  revert k. induction s as [|a s IH]; intros k; [simpl; tauto|].
  destruct k as [|k].
  - change (replace_from old [] 0 (a :: s))
      with (if startswith (a :: s) old
            then [] ++ replace_from old [] (Nat.pred (len old)) s
            else a :: replace_from old [] 0 s).
    destruct (startswith (a :: s) old).
    + rewrite app_nil_l. intros H. right. eapply IH. exact H.
    + intros [H | H]; [now left | right; eapply IH; exact H].
  - change (replace_from old [] (S k) (a :: s))
      with (replace_from old [] k s).
    intros H. right. eapply IH. exact H.
Qed.

Lemma sanitize_path_no_dangerous (path : str) (c : char) :
  In c (sanitize_path path) -> dangerous c = false.
Proof.
  unfold sanitize_path.
  destruct (falsy path || falsy (strip path)); simpl; [tauto|].
  intros H. apply replace_from_subset in H.
  unfold re_sub_class in H. apply filter_In in H.
  destruct H as [_ H]. now apply negb_true_iff in H.
Qed.

Lemma drop_dotdot_pair (s : str) :
  drop_dotdot (0x2E :: 0x2E :: s)%N = drop_dotdot s.
Proof. reflexivity. Qed.

Lemma drop_dotdot_keep (c : char) (s : str) :
  startswith (c :: s) (lit "..") = false ->
  drop_dotdot (c :: s) = c :: drop_dotdot s.
Proof.
  intros H. unfold drop_dotdot.
  change (replace_from (lit "..") [] 0 (c :: s))
    with (if startswith (c :: s) (lit "..")
          then [] ++ replace_from (lit "..") [] (Nat.pred (len (lit ".."))) s
          else c :: replace_from (lit "..") [] 0 s).
  now rewrite H.
Qed.

Lemma startswith_dotdot (s : str) :
  startswith s (lit "..") = true -> exists t, s = (0x2E :: 0x2E :: t)%N.
Proof.
  change (lit "..") with [0x2E; 0x2E]%N.
  destruct s as [|a [|b t]]; simpl; try discriminate.
  - now rewrite andb_false_r.
  - intros H. apply andb_prop in H. destruct H as [Ha H].
    apply andb_prop in H. destruct H as [Hb _].
    apply N.eqb_eq in Ha, Hb. subst. now exists t.
Qed.

(** After the removal no two dots are adjacent: a dot that is kept is
    followed by a character that is kept and is not a dot. *)
Lemma drop_dotdot_no_dotdot_upto (n : nat) (s : str) :
  (List.length s <= n)%nat ->
  contains (drop_dotdot s) (lit "..") = false.
Proof.
  revert s. induction n as [|n IH]; intros s Hlen.
  - destruct s; [reflexivity | simpl in Hlen; lia].
  - destruct s as [|a s]; [reflexivity|].
    destruct (startswith (a :: s) (lit "..")) eqn:Hdd.
    + destruct (startswith_dotdot _ Hdd) as (t & Heq).
      rewrite Heq, drop_dotdot_pair. apply IH.
      injection Heq as _ Hs. subst s. simpl in Hlen. lia.
    + rewrite (drop_dotdot_keep _ _ Hdd).
      assert (Htail : contains (drop_dotdot s) (lit "..") = false)
        by (apply IH; simpl in Hlen; lia).
      change (contains (a :: drop_dotdot s) (lit ".."))
        with (startswith (a :: drop_dotdot s) (lit "..")
              || contains (drop_dotdot s) (lit "..")).
      rewrite Htail, orb_false_r.
      destruct (startswith (a :: drop_dotdot s) (lit "..")) eqn:Hhead;
        [|reflexivity].
      exfalso.
      destruct (startswith_dotdot _ Hhead) as (t & Heq).
      injection Heq as Ha Hs. subst a.
      destruct s as [|b s']; [discriminate Hs|].
      destruct (startswith (b :: s') (lit "..")) eqn:Hdd2.
      * destruct (startswith_dotdot _ Hdd2) as (t2 & Heq2).
        injection Heq2 as Hb _. subst b.
        revert Hdd. change (lit "..") with [0x2E; 0x2E]%N. simpl.
        discriminate.
      * rewrite (drop_dotdot_keep _ _ Hdd2) in Hs.
        injection Hs as Hb _. subst b.
        revert Hdd. change (lit "..") with [0x2E; 0x2E]%N. simpl.
        discriminate.
Qed.

Lemma sanitize_path_no_dotdot (path : str) :
  contains (sanitize_path path) (lit "..") = false.
Proof.
  unfold sanitize_path.
  destruct (falsy path || falsy (strip path)); [reflexivity|].
  change (replace (re_sub_class dangerous (strip path)) (lit "..") [])
    with (drop_dotdot (re_sub_class dangerous (strip path))).
  eapply drop_dotdot_no_dotdot_upto. apply Nat.le_refl.
Qed.

(** *** The executor, case by case *)

Section Executor.
Variable w : World.
Variables (repo_path args : str) (timeout : Z) (tr : Trace).

Let cmd := [lit "git"; lit "-C"; repo_path] ++ split args.

Lemma run_git_command_invalid :
  repo_path = [] \/ isdir w repo_path = false ->
  run_git_command w repo_path args timeout tr
  = (Ok (lit "❌ Error: Invalid repository path"), tr).
Proof.
  intros H. unfold run_git_command.
  destruct H as [-> | H]; [reflexivity|].
  rewrite H. now rewrite orb_true_r.
Qed.

Lemma run_git_command_not_git :
  repo_path <> [] -> isdir w repo_path = true ->
  stat_exists w (joinpath (Path repo_path) (lit ".git")) = Some false ->
  run_git_command w repo_path args timeout tr
  = (Ok (lit "❌ Error: Not a git repository"), tr).
Proof.
  intros Hne Hdir Hgit. unfold run_git_command.
  apply falsy_false in Hne. rewrite Hne, Hdir.
  unfold bind, path_exists. now rewrite Hgit.
Qed.

Lemma run_git_command_stat_raises :
  repo_path <> [] -> isdir w repo_path = true ->
  stat_exists w (joinpath (Path repo_path) (lit ".git")) = None ->
  run_git_command w repo_path args timeout tr = (Raise OSError, tr).
Proof.
  intros Hne Hdir Hgit. unfold run_git_command.
  apply falsy_false in Hne. rewrite Hne, Hdir.
  unfold bind, path_exists. now rewrite Hgit.
Qed.

Lemma run_git_command_trace :
  is_repository w repo_path ->
  snd (run_git_command w repo_path args timeout tr)
  = tr ++ [{| argv := cmd; timeout_of := timeout |}].
Proof.
  intros (Hne & Hdir & Hgit). unfold run_git_command.
  apply falsy_false in Hne. rewrite Hne, Hdir.
  unfold bind, path_exists, spawn. rewrite Hgit.
  cbn [orb negb]. cbv beta iota. fold cmd.
  destruct (subprocess_run w tr cmd timeout) as [so se rc| |m];
    try reflexivity.
  destruct (rc =? 0)%Z; reflexivity.
Qed.

Lemma run_git_command_completed (stdout stderr : str) (returncode : Z) :
  is_repository w repo_path ->
  subprocess_run w tr cmd timeout = Completed stdout stderr returncode ->
  fst (run_git_command w repo_path args timeout tr)
  = Ok (let output := bounded (captured stdout stderr) in
        if (returncode =? 0)%Z
        then if falsy (strip output)
             then lit "✅ Command completed successfully" else output
        else lit "⚠️ Git command completed with status "
             ++ str_of_int returncode ++ lit ":" ++ LF ++ output).
Proof.
  intros (Hne & Hdir & Hgit) Hrun. unfold run_git_command.
  apply falsy_false in Hne. rewrite Hne, Hdir.
  unfold bind, path_exists, spawn. rewrite Hgit.
  cbn [orb negb]. cbv beta iota. fold cmd. rewrite Hrun. cbv zeta.
  destruct (returncode =? 0)%Z; reflexivity.
Qed.

(** A process is spawned only on a path that passed both checks. *)
Lemma run_git_command_spawn_checked :
  snd (run_git_command w repo_path args timeout tr) <> tr ->
  is_repository w repo_path.
Proof.
  intros Hspawn. unfold is_repository.
  destruct (falsy repo_path) eqn:Hne.
  - apply falsy_true in Hne.
    exfalso. apply Hspawn. now rewrite run_git_command_invalid by now left.
  - apply falsy_false in Hne.
    destruct (isdir w repo_path) eqn:Hdir.
    + destruct (stat_exists w (joinpath (Path repo_path) (lit ".git")))
        as [[|]|] eqn:Hgit.
      * auto.
      * exfalso. apply Hspawn. now rewrite run_git_command_not_git.
      * exfalso. apply Hspawn. now rewrite run_git_command_stat_raises.
    + exfalso. apply Hspawn. now rewrite run_git_command_invalid by now right.
Qed.

End Executor.

(** *** The resolver *)

(** What an accepted name went through: the sanitized name joined onto
    the root resolved, the root resolved, and the prefix test passed. *)
Lemma get_repo_path_accepted_inv (w : World) (repo_name : str) :
  get_repo_path w repo_name <> [] ->
  exists repo_path base_path,
    resolve w (joinpath (Path (REPOS_BASE_PATH w)) (sanitize_path repo_name))
    = Some repo_path
    /\ resolve w (Path (REPOS_BASE_PATH w)) = Some base_path
    /\ startswith (str_of_path repo_path) (str_of_path base_path) = true
    /\ get_repo_path w repo_name = str_of_path repo_path.
Proof.
  unfold get_repo_path.
  destruct (falsy repo_name || falsy (strip repo_name)); [congruence|].
  destruct (falsy (sanitize_path repo_name)); [congruence|].
  destruct (resolve w (joinpath _ _)) as [rp|]; [|congruence].
  destruct (resolve w (Path _)) as [bp|]; [|congruence].
  destruct (startswith (str_of_path rp) (str_of_path bp)) eqn:Hpre;
    simpl; [|congruence].
  intros _. now exists rp, bp.
Qed.

(** The name [.] and every name that sanitizes to [.] resolve to the
    root itself. *)
Lemma get_repo_path_of_dot (w : World) (base_path : PurePath) (repo_name : str) :
  repo_name <> [] -> strip repo_name <> [] ->
  sanitize_path repo_name = lit "." ->
  resolve w (Path (REPOS_BASE_PATH w)) = Some base_path ->
  get_repo_path w repo_name = str_of_path base_path.
Proof.
  intros Hn Hs Hsan Hres. unfold get_repo_path.
  apply falsy_false in Hn, Hs. rewrite Hn, Hs, Hsan.
  cbn [orb]. change (falsy (lit ".")) with false. cbv iota.
  rewrite joinpath_dot, Hres, startswith_refl. reflexivity.
Qed.

(** *** The handlers: which git they run *)

Lemma snd_bind_ret {A B : Type} (m : Proc A) (f : A -> B) (tr : Trace) :
  snd (bind m (fun a => ret (f a)) tr) = snd (m tr).
Proof.
  unfold bind, ret. destruct (m tr) as [[a|e] tr']; reflexivity.
Qed.

Lemma int_50 (rt : Runtime) : int rt (lit "50") = Some 50%Z.
Proof. reflexivity. Qed.

Lemma limit_int_50 (rt : Runtime) : limit_int rt (lit "50") = 50%Z.
Proof. reflexivity. Qed.

Lemma limit_int_unusable (rt : Runtime) (limit : str) :
  unusable_limit rt limit -> limit_int rt limit = 10%Z.
Proof.
  unfold limit_int. intros [Hnone | (v & Hv & Hrange)].
  - rewrite Hnone. now destruct (falsy (strip limit)).
  - rewrite Hv. destruct (falsy (strip limit)); [reflexivity|].
    destruct Hrange as [Hlo | Hhi].
    + apply Z.ltb_lt in Hlo. now rewrite Hlo.
    + apply Z.ltb_lt in Hhi. rewrite Hhi. now rewrite orb_true_r.
Qed.

Lemma accepted_nonblank (w : World) (repo_name repo_path : str) :
  accepted w repo_name repo_path -> strip repo_name <> [].
Proof.
  intros (Hpath & Hne) Hblank. apply Hne. rewrite <- Hpath.
  unfold get_repo_path. rewrite Hblank. now rewrite orb_true_r.
Qed.

Section Handlers.
Variable w : World.
Variables (repo_name repo_path : str) (tr : Trace).
Hypothesis Hacc : accepted w repo_name repo_path.

Lemma repo_log_trace (limit : str) :
  is_repository w repo_path ->
  snd (repo_log w repo_name limit tr)
  = tr ++ [git_call repo_path
             (split (lit "log --oneline -n "
                     ++ str_of_int (limit_int (runtime w) limit)))].
Proof.
  intros Hrepo. pose proof (accepted_nonblank w repo_name repo_path Hacc) as Hblank.
  destruct Hacc as (Hpath & Hne).
  unfold repo_log. apply falsy_false in Hblank, Hne.
  rewrite Hblank, Hpath, Hne. cbv zeta.
  rewrite snd_bind_ret. now rewrite run_git_command_trace.
Qed.

Lemma repo_file_history_trace (file_path limit : str) :
  is_repository w repo_path ->
  sanitize_path file_path <> [] ->
  snd (repo_file_history w repo_name file_path limit tr)
  = tr ++ [git_call repo_path
             (split (lit "log --oneline -n "
                     ++ str_of_int (limit_int (runtime w) limit)
                     ++ lit " -- " ++ sanitize_path file_path))].
Proof.
  intros Hrepo Hfile. pose proof (accepted_nonblank w repo_name repo_path Hacc) as Hblank.
  destruct Hacc as (Hpath & Hne).
  assert (Hfb : falsy (strip file_path) = false).
  { destruct (falsy (strip file_path)) eqn:E; [|reflexivity].
    exfalso. apply Hfile. unfold sanitize_path. rewrite E.
    now rewrite orb_true_r. }
  unfold repo_file_history. apply falsy_false in Hblank, Hne, Hfile.
  rewrite Hblank, Hfb, Hpath, Hne, Hfile. cbv zeta.
  rewrite snd_bind_ret. now rewrite run_git_command_trace.
Qed.

Lemma repo_show_commit_run (commit_hash : str) :
  strip commit_hash <> [] ->
  re_sub_class not_hex (strip commit_hash) <> [] ->
  repo_show_commit w repo_name commit_hash tr
  = bind (run_git_command w repo_path
            (lit "show " ++ re_sub_class not_hex (strip commit_hash))
            GIT_TIMEOUT)
         (fun result =>
            ret (lit "📝 Commit " ++ re_sub_class not_hex (strip commit_hash)
                 ++ lit " in " ++ repo_name ++ lit ":" ++ LF ++ LF ++ result))
         tr.
Proof.
  intros Hh Hhex. pose proof (accepted_nonblank w repo_name repo_path Hacc) as Hblank.
  destruct Hacc as (Hpath & Hne).
  unfold repo_show_commit. apply falsy_false in Hblank, Hne, Hh, Hhex.
  now rewrite Hblank, Hh, Hpath, Hne, Hhex.
Qed.

Lemma repo_show_commit_no_hex (commit_hash : str) :
  strip commit_hash <> [] ->
  re_sub_class not_hex (strip commit_hash) = [] ->
  repo_show_commit w repo_name commit_hash tr
  = (Ok (lit "❌ Error: Invalid commit hash format"), tr).
Proof.
  intros Hh Hhex. pose proof (accepted_nonblank w repo_name repo_path Hacc) as Hblank.
  destruct Hacc as (Hpath & Hne).
  unfold repo_show_commit. apply falsy_false in Hblank, Hne, Hh.
  now rewrite Hblank, Hh, Hpath, Hne, Hhex.
Qed.

End Handlers.

(** Whatever the repository name, a hash without a hexadecimal digit
    never reaches git. *)
Lemma repo_show_commit_no_hex_no_spawn (w : World) (repo_name commit_hash : str)
    (tr : Trace) :
  re_sub_class not_hex (strip commit_hash) = [] ->
  snd (repo_show_commit w repo_name commit_hash tr) = tr.
Proof.
  intros Hhex. unfold repo_show_commit. rewrite Hhex.
  destruct (falsy (strip repo_name)); [reflexivity|].
  destruct (falsy (strip commit_hash)); [reflexivity|].
  destruct (falsy (get_repo_path w repo_name)); reflexivity.
Qed.

(** ** The properties of the specification *)

(** C1 (the code departs from it): a repository name with a shell
    metacharacter must be rejected or resolve below the root.  With the
    root [/repos], the name [;/repos-private] loses its [;], the absolute
    remainder replaces the root in the join, and the prefix test on
    strings lets [/repos-private] through: it is accepted although it is
    a sibling of the root, not a descendant. *)
Theorem prefix_check_accepts_sibling_of_root :
  contains (lit ";/repos-private") (lit ";") = true
  /\ sanitize_path (lit ";/repos-private") = lit "/repos-private"
  /\ resolve (Demo.world Demo.quiet)
       (Path (REPOS_BASE_PATH (Demo.world Demo.quiet)))
     = Some (Path (lit "/repos"))
  /\ resolve (Demo.world Demo.quiet)
       (joinpath (Path (REPOS_BASE_PATH (Demo.world Demo.quiet)))
                 (sanitize_path (lit ";/repos-private")))
     = Some (Path (lit "/repos-private"))
  /\ get_repo_path (Demo.world Demo.quiet) (lit ";/repos-private")
     = lit "/repos-private"
  /\ within (Path (lit "/repos")) (Path (lit "/repos-private")) = false
  /\ descendant (Path (lit "/repos")) (Path (lit "/repos-private")) = false.
Proof. repeat split; vm_compute; reflexivity. Qed.

(** C2: for every accepted repository name, the string of the resolved
    path starts with the string of the resolved root. *)
Theorem accepted_path_starts_with_root (w : World) (repo_name : str) :
  get_repo_path w repo_name <> [] ->
  exists repo_path base_path,
    resolve w (joinpath (Path (REPOS_BASE_PATH w)) (sanitize_path repo_name))
    = Some repo_path
    /\ resolve w (Path (REPOS_BASE_PATH w)) = Some base_path
    /\ get_repo_path w repo_name = str_of_path repo_path
    /\ startswith (get_repo_path w repo_name) (str_of_path base_path) = true.
Proof.
  intros Hacc.
  destruct (get_repo_path_accepted_inv w repo_name Hacc)
    as (rp & bp & Hrp & Hbp & Hpre & Heq).
  exists rp, bp. rewrite Heq. auto.
Qed.

Lemma accepted_path_starts_with_root_witness :
  get_repo_path (Demo.world Demo.quiet) (lit "demo") <> []
  /\ exists repo_path base_path,
       resolve (Demo.world Demo.quiet)
         (joinpath (Path (REPOS_BASE_PATH (Demo.world Demo.quiet)))
                   (sanitize_path (lit "demo")))
       = Some repo_path
       /\ resolve (Demo.world Demo.quiet)
            (Path (REPOS_BASE_PATH (Demo.world Demo.quiet)))
          = Some base_path
       /\ get_repo_path (Demo.world Demo.quiet) (lit "demo")
          = str_of_path repo_path
       /\ startswith (get_repo_path (Demo.world Demo.quiet) (lit "demo"))
            (str_of_path base_path) = true.
Proof.
  assert (H : get_repo_path (Demo.world Demo.quiet) (lit "demo") <> [])
    by (vm_compute; discriminate).
  split; [exact H|].
  exact (accepted_path_starts_with_root (Demo.world Demo.quiet) (lit "demo") H).
Defined.

(** C3 (the code departs from it): the search term is to reach git grep
    as one quoted argument.  The handler does wrap the escaped term in
    double quotes, but the executor cuts the command text at whitespace:
    the term [foo bar] arrives as the two arguments ["foo] and [bar"],
    quote characters included. *)
Theorem repo_search_term_split_at_blank :
  replace (strip (lit "foo bar")) DQUOTE (BACKSLASH ++ DQUOTE) = lit "foo bar"
  /\ snd (repo_search (Demo.world Demo.quiet) (lit "demo") (lit "foo bar") [])
     = [git_call (lit "/repos/demo")
          [lit "grep"; lit "-n"; DQUOTE ++ lit "foo"; lit "bar" ++ DQUOTE]].
Proof. split; vm_compute; reflexivity. Qed.

(** C4, as stated, fails: the resolver accepts the name [ghost] although
    [/repos/ghost] is not a directory and has no [.git] entry. *)
Lemma accepted_path_need_not_exist :
  get_repo_path (Demo.world Demo.quiet) (lit "ghost") = lit "/repos/ghost"
  /\ isdir (Demo.world Demo.quiet) (lit "/repos/ghost") = false
  /\ stat_exists (Demo.world Demo.quiet)
       (joinpath (Path (lit "/repos/ghost")) (lit ".git")) = Some false.
Proof. repeat split; vm_compute; reflexivity. Qed.

(** C4, amended: every path the resolver accepts is the resolved
    (absolute, canonical) form of the sanitized name joined onto the
    root; that it is an existing directory with a [.git] entry is not
    checked by the resolver but by the executor, which spawns git only
    on a path that passes both checks. *)
Theorem accepted_path_resolved_then_checked_by_executor
    (w : World) (repo_name : str) :
  get_repo_path w repo_name <> [] ->
  (exists repo_path,
     resolve w (joinpath (Path (REPOS_BASE_PATH w)) (sanitize_path repo_name))
     = Some repo_path
     /\ get_repo_path w repo_name = str_of_path repo_path)
  /\ forall (args : str) (timeout : Z) (tr : Trace),
       snd (run_git_command w (get_repo_path w repo_name) args timeout tr)
       <> tr ->
       isdir w (get_repo_path w repo_name) = true
       /\ stat_exists w
            (joinpath (Path (get_repo_path w repo_name)) (lit ".git"))
          = Some true.
Proof.
  intros Hacc. split.
  - destruct (get_repo_path_accepted_inv w repo_name Hacc)
      as (rp & bp & Hrp & _ & _ & Heq).
    now exists rp.
  - intros args timeout tr Hspawn.
    apply run_git_command_spawn_checked in Hspawn.
    destruct Hspawn as (_ & Hdir & Hgit). auto.
Qed.

Lemma accepted_path_resolved_then_checked_by_executor_witness :
  get_repo_path (Demo.world Demo.quiet) (lit "demo") <> []
  /\ ((exists repo_path,
         resolve (Demo.world Demo.quiet)
           (joinpath (Path (REPOS_BASE_PATH (Demo.world Demo.quiet)))
                     (sanitize_path (lit "demo")))
         = Some repo_path
         /\ get_repo_path (Demo.world Demo.quiet) (lit "demo")
            = str_of_path repo_path)
      /\ forall (args : str) (timeout : Z) (tr : Trace),
           snd (run_git_command (Demo.world Demo.quiet)
                  (get_repo_path (Demo.world Demo.quiet) (lit "demo"))
                  args timeout tr) <> tr ->
           isdir (Demo.world Demo.quiet)
             (get_repo_path (Demo.world Demo.quiet) (lit "demo")) = true
           /\ stat_exists (Demo.world Demo.quiet)
                (joinpath
                   (Path (get_repo_path (Demo.world Demo.quiet) (lit "demo")))
                   (lit ".git"))
              = Some true).
Proof.
  assert (H : get_repo_path (Demo.world Demo.quiet) (lit "demo") <> [])
    by (vm_compute; discriminate).
  split; [exact H|].
  exact (accepted_path_resolved_then_checked_by_executor
           (Demo.world Demo.quiet) (lit "demo") H).
Defined.

(** Where the entry tests of the executor give an answer: for a path
    that is empty or not an existing directory it returns the
    invalid-path error, for a directory whose [.git] test answers "no"
    the not-a-git-repository error, and the list of spawned processes is
    unchanged. *)
Theorem precondition_failure_spawns_nothing
    (w : World) (repo_path args : str) (timeout : Z) (tr : Trace) :
  (repo_path = [] \/ isdir w repo_path = false ->
   run_git_command w repo_path args timeout tr
   = (Ok (lit "❌ Error: Invalid repository path"), tr))
  /\ (repo_path <> [] -> isdir w repo_path = true ->
      stat_exists w (joinpath (Path repo_path) (lit ".git")) = Some false ->
      run_git_command w repo_path args timeout tr
      = (Ok (lit "❌ Error: Not a git repository"), tr)).
Proof.
  split.
  - apply run_git_command_invalid.
  - apply run_git_command_not_git.
Qed.

Lemma precondition_failure_spawns_nothing_witness :
  (isdir (Demo.world Demo.quiet) (lit "/repos/ghost") = false
   /\ run_git_command (Demo.world Demo.quiet) (lit "/repos/ghost")
        (lit "status") GIT_TIMEOUT []
      = (Ok (lit "❌ Error: Invalid repository path"), []))
  /\ (lit "/repos" <> []
      /\ isdir (Demo.world Demo.quiet) (lit "/repos") = true
      /\ stat_exists (Demo.world Demo.quiet)
           (joinpath (Path (lit "/repos")) (lit ".git")) = Some false
      /\ run_git_command (Demo.world Demo.quiet) (lit "/repos")
           (lit "status") GIT_TIMEOUT []
         = (Ok (lit "❌ Error: Not a git repository"), [])).
Proof.
  assert (H1 : isdir (Demo.world Demo.quiet) (lit "/repos/ghost") = false)
    by (vm_compute; reflexivity).
  assert (H2 : lit "/repos" <> []) by (vm_compute; discriminate).
  assert (H3 : isdir (Demo.world Demo.quiet) (lit "/repos") = true)
    by (vm_compute; reflexivity).
  assert (H4 : stat_exists (Demo.world Demo.quiet)
                 (joinpath (Path (lit "/repos")) (lit ".git")) = Some false)
    by (vm_compute; reflexivity).
  split.
  - split; [exact H1|].
    exact (proj1 (precondition_failure_spawns_nothing (Demo.world Demo.quiet)
                    (lit "/repos/ghost") (lit "status") GIT_TIMEOUT [])
                 (or_intror H1)).
  - split; [exact H2|]. split; [exact H3|]. split; [exact H4|].
    exact (proj2 (precondition_failure_spawns_nothing (Demo.world Demo.quiet)
                    (lit "/repos") (lit "status") GIT_TIMEOUT [])
                 H2 H3 H4).
Defined.

(** C5 (the code departs from it): when the entry condition fails the
    executor is to answer a structured error.  The test for [.git]
    (lines 74 to 76) stands before the [try]: on a directory without
    search permission the [stat] behind [exists()] fails with permission
    denied, [exists()] re-raises, and the executor raises instead of
    answering; so does the tool that called it.  No process is spawned. *)
Theorem unsearchable_directory_makes_executor_raise :
  lit "/repos/locked" <> []
  /\ isdir Locked.world (lit "/repos/locked") = true
  /\ stat_exists Locked.world (joinpath (Path (lit "/repos/locked")) (lit ".git"))
     = None
  /\ run_git_command Locked.world (lit "/repos/locked") (lit "status")
       GIT_TIMEOUT []
     = (Raise OSError, [])
  /\ get_repo_path Locked.world (lit "locked") = lit "/repos/locked"
  /\ repo_status Locked.world (lit "locked") [] = (Raise OSError, []).
Proof.
  split; [vm_compute; discriminate|].
  repeat split; vm_compute; reflexivity.
Qed.

(** C6, as stated, fails: git exits with status 0 and prints a single
    line feed; the output is not empty, yet the executor answers the
    success sentinel instead of that output. *)
Lemma blank_output_reported_as_sentinel :
  subprocess_run (Demo.world (Demo.answers (Completed LF [] 0))) []
    ([lit "git"; lit "-C"; lit "/repos/demo"] ++ split (lit "status"))
    GIT_TIMEOUT
  = Completed LF [] 0
  /\ captured LF [] <> []
  /\ fst (run_git_command (Demo.world (Demo.answers (Completed LF [] 0)))
            (lit "/repos/demo") (lit "status") GIT_TIMEOUT [])
     = Ok (lit "✅ Command completed successfully")
  /\ fst (run_git_command (Demo.world (Demo.answers (Completed LF [] 0)))
            (lit "/repos/demo") (lit "status") GIT_TIMEOUT [])
     <> Ok (captured LF []).
Proof.
  split; [reflexivity|]. split; [vm_compute; discriminate|].
  split; [vm_compute; reflexivity|]. vm_compute. discriminate.
Qed.

(** C6, amended: for a completed invocation the executor reports
    standard output if it is not empty and standard error otherwise,
    bounded to the cap; with status 0 it returns that text when the text
    has a character that is not whitespace and the success sentinel when
    the text is empty or all whitespace; with another status it returns
    the degraded result carrying the status and the text. *)
Theorem completed_invocation_classified
    (w : World) (repo_path args : str) (timeout : Z) (tr : Trace)
    (stdout stderr : str) (returncode : Z) :
  is_repository w repo_path ->
  subprocess_run w tr ([lit "git"; lit "-C"; repo_path] ++ split args) timeout
  = Completed stdout stderr returncode ->
  exists output,
    (stdout <> [] -> output = bounded stdout)
    /\ (stdout = [] -> output = bounded stderr)
    /\ (returncode = 0%Z -> strip output <> [] ->
        fst (run_git_command w repo_path args timeout tr) = Ok output)
    /\ (returncode = 0%Z -> strip output = [] ->
        fst (run_git_command w repo_path args timeout tr)
        = Ok (lit "✅ Command completed successfully"))
    /\ (returncode <> 0%Z ->
        fst (run_git_command w repo_path args timeout tr)
        = Ok (lit "⚠️ Git command completed with status "
              ++ str_of_int returncode ++ lit ":" ++ LF ++ output)).
Proof.
  intros Hrepo Hrun.
  pose proof (run_git_command_completed w repo_path args timeout tr
                stdout stderr returncode Hrepo Hrun) as Hfst.
  cbv zeta in Hfst.
  exists (bounded (captured stdout stderr)).
  split; [|split; [|split; [|split]]].
  - intros Hso. unfold captured. apply falsy_false in Hso. now rewrite Hso.
  - intros ->. reflexivity.
  - intros -> Hout. rewrite Hfst. apply falsy_false in Hout.
    now rewrite Z.eqb_refl, Hout.
  - intros -> Hout. rewrite Hfst. now rewrite Z.eqb_refl, Hout.
  - intros Hrc. rewrite Hfst. apply Z.eqb_neq in Hrc. now rewrite Hrc.
Qed.

Lemma completed_invocation_classified_witness :
  is_repository (Demo.world (Demo.answers (Completed (lit "clean") [] 0)))
    (lit "/repos/demo")
  /\ exists output,
       (lit "clean" <> [] -> output = bounded (lit "clean"))
       /\ (lit "clean" = [] -> output = bounded [])
       /\ (0%Z = 0%Z -> strip output <> [] ->
           fst (run_git_command
                  (Demo.world (Demo.answers (Completed (lit "clean") [] 0)))
                  (lit "/repos/demo") (lit "status") GIT_TIMEOUT [])
           = Ok output)
       /\ (0%Z = 0%Z -> strip output = [] ->
           fst (run_git_command
                  (Demo.world (Demo.answers (Completed (lit "clean") [] 0)))
                  (lit "/repos/demo") (lit "status") GIT_TIMEOUT [])
           = Ok (lit "✅ Command completed successfully"))
       /\ (0%Z <> 0%Z ->
           fst (run_git_command
                  (Demo.world (Demo.answers (Completed (lit "clean") [] 0)))
                  (lit "/repos/demo") (lit "status") GIT_TIMEOUT [])
           = Ok (lit "⚠️ Git command completed with status "
                 ++ str_of_int 0 ++ lit ":" ++ LF ++ output)).
Proof.
  assert (H : is_repository
                (Demo.world (Demo.answers (Completed (lit "clean") [] 0)))
                (lit "/repos/demo")).
  { split; [vm_compute; discriminate|]. split; vm_compute; reflexivity. }
  split; [exact H|].
  exact (completed_invocation_classified
           (Demo.world (Demo.answers (Completed (lit "clean") [] 0)))
           (lit "/repos/demo") (lit "status") GIT_TIMEOUT []
           (lit "clean") [] 0 H eq_refl).
Defined.


(** C8: in [repo_log] and [repo_file_history], a limit that [int]
    rejects or whose value is outside 1..100 makes the git invocation
    carry [-n 10]; the limit [50] makes it carry [-n 50]. *)
Theorem effective_limit_defaults_to_10
    (w : World) (repo_name repo_path file_path limit : str) (tr : Trace) :
  accepted w repo_name repo_path ->
  is_repository w repo_path ->
  sanitize_path file_path <> [] ->
  (unusable_limit (runtime w) limit ->
   limit_int (runtime w) limit = 10%Z
   /\ snd (repo_log w repo_name limit tr)
      = tr ++ [git_call repo_path
                 [lit "log"; lit "--oneline"; lit "-n"; lit "10"]]
   /\ snd (repo_file_history w repo_name file_path limit tr)
      = tr ++ [git_call repo_path
                 ([lit "log"; lit "--oneline"; lit "-n"; lit "10"; lit "--"]
                  ++ split (sanitize_path file_path))])
  /\ (limit_int (runtime w) (lit "50") = 50%Z
      /\ snd (repo_log w repo_name (lit "50") tr)
         = tr ++ [git_call repo_path
                    [lit "log"; lit "--oneline"; lit "-n"; lit "50"]]
      /\ snd (repo_file_history w repo_name file_path (lit "50") tr)
         = tr ++ [git_call repo_path
                    ([lit "log"; lit "--oneline"; lit "-n"; lit "50"; lit "--"]
                     ++ split (sanitize_path file_path))]).
Proof.
  intros Hacc Hrepo Hfile. split.
  - intros Hbad. apply limit_int_unusable in Hbad.
    split; [exact Hbad|]. split.
    + rewrite (repo_log_trace w repo_name repo_path tr Hacc limit Hrepo).
      rewrite Hbad. reflexivity.
    + rewrite (repo_file_history_trace w repo_name repo_path tr Hacc
                 file_path limit Hrepo Hfile).
      rewrite Hbad. reflexivity.
  - split; [apply limit_int_50|]. split.
    + rewrite (repo_log_trace w repo_name repo_path tr Hacc (lit "50") Hrepo).
      rewrite limit_int_50. reflexivity.
    + rewrite (repo_file_history_trace w repo_name repo_path tr Hacc
                 file_path (lit "50") Hrepo Hfile).
      rewrite limit_int_50. reflexivity.
Qed.

Lemma effective_limit_defaults_to_10_witness :
  (accepted (Demo.world Demo.quiet) (lit "demo") (lit "/repos/demo")
   /\ is_repository (Demo.world Demo.quiet) (lit "/repos/demo")
   /\ sanitize_path (lit "README.md") <> []
   /\ unusable_limit Demo.ascii_runtime (lit "abc")
   /\ unusable_limit Demo.ascii_runtime (lit "101")
   /\ unusable_limit Demo.ascii_runtime (lit "0"))
  /\ snd (repo_log (Demo.world Demo.quiet) (lit "demo") (lit "abc") [])
     = [git_call (lit "/repos/demo")
          [lit "log"; lit "--oneline"; lit "-n"; lit "10"]]
  /\ snd (repo_file_history (Demo.world Demo.quiet) (lit "demo")
            (lit "README.md") (lit "101") [])
     = [git_call (lit "/repos/demo")
          [lit "log"; lit "--oneline"; lit "-n"; lit "10"; lit "--";
           lit "README.md"]]
  /\ limit_int Demo.ascii_runtime (lit "0") = 10%Z
  /\ snd (repo_log (Demo.world Demo.quiet) (lit "demo") (lit "50") [])
     = [git_call (lit "/repos/demo")
          [lit "log"; lit "--oneline"; lit "-n"; lit "50"]].
Proof.
  assert (Hacc : accepted (Demo.world Demo.quiet) (lit "demo")
                   (lit "/repos/demo")).
  { split; [vm_compute; reflexivity | vm_compute; discriminate]. }
  assert (Hrepo : is_repository (Demo.world Demo.quiet) (lit "/repos/demo")).
  { split; [vm_compute; discriminate|]. split; vm_compute; reflexivity. }
  assert (Hfile : sanitize_path (lit "README.md") <> [])
    by (vm_compute; discriminate).
  assert (Habc : unusable_limit Demo.ascii_runtime (lit "abc"))
    by (left; vm_compute; reflexivity).
  assert (H101 : unusable_limit Demo.ascii_runtime (lit "101")).
  { right. exists 101%Z. split; [vm_compute; reflexivity | right; lia]. }
  assert (H0 : unusable_limit Demo.ascii_runtime (lit "0")).
  { right. exists 0%Z. split; [vm_compute; reflexivity | left; lia]. }
  split; [repeat (split; [assumption|]); assumption|].
  split.
  { exact (proj1 (proj2 (proj1
      (effective_limit_defaults_to_10 (Demo.world Demo.quiet) (lit "demo")
         (lit "/repos/demo") (lit "README.md") (lit "abc") []
         Hacc Hrepo Hfile) Habc))). }
  split.
  { exact (proj2 (proj2 (proj1
      (effective_limit_defaults_to_10 (Demo.world Demo.quiet) (lit "demo")
         (lit "/repos/demo") (lit "README.md") (lit "101") []
         Hacc Hrepo Hfile) H101))). }
  split.
  { exact (proj1 (proj1
      (effective_limit_defaults_to_10 (Demo.world Demo.quiet) (lit "demo")
         (lit "/repos/demo") (lit "README.md") (lit "0") []
         Hacc Hrepo Hfile) H0)). }
  exact (proj1 (proj2 (proj2
    (effective_limit_defaults_to_10 (Demo.world Demo.quiet) (lit "demo")
       (lit "/repos/demo") (lit "README.md") (lit "0") []
       Hacc Hrepo Hfile)))).
Defined.


(** C10: the names [.] and [...] (which sanitizes to [.]) are accepted
    whenever the root resolves, and the path returned is the resolved
    root itself: the prefix test passes on equal strings, so an accepted
    path need not lie strictly below the root. *)
Theorem root_itself_accepted (w : World) (base_path : PurePath) :
  resolve w (Path (REPOS_BASE_PATH w)) = Some base_path ->
  sanitize_path (lit "...") = lit "."
  /\ get_repo_path w (lit ".") = str_of_path base_path
  /\ get_repo_path w (lit "...") = str_of_path base_path
  /\ str_of_path base_path <> []
  /\ startswith (str_of_path base_path) (str_of_path base_path) = true
  /\ descendant base_path base_path = false.
Proof.
  intros Hres.
  split; [reflexivity|]. split; [|split; [|split; [|split]]].
  - apply get_repo_path_of_dot; try assumption; try reflexivity;
      vm_compute; discriminate.
  - apply get_repo_path_of_dot; try assumption; try reflexivity;
      vm_compute; discriminate.
  - apply str_of_path_nonempty.
  - apply startswith_refl.
  - unfold descendant. rewrite Nat.ltb_irrefl. apply andb_false_r.
Qed.

Lemma root_itself_accepted_witness :
  resolve (Demo.world Demo.quiet)
    (Path (REPOS_BASE_PATH (Demo.world Demo.quiet)))
  = Some (Path (lit "/repos"))
  /\ get_repo_path (Demo.world Demo.quiet) (lit ".") = lit "/repos"
  /\ get_repo_path (Demo.world Demo.quiet) (lit "...") = lit "/repos".
Proof.
  assert (H : resolve (Demo.world Demo.quiet)
                (Path (REPOS_BASE_PATH (Demo.world Demo.quiet)))
              = Some (Path (lit "/repos"))) by (vm_compute; reflexivity).
  split; [exact H|].
  destruct (root_itself_accepted (Demo.world Demo.quiet) (Path (lit "/repos")) H)
    as (_ & Hdot & Hdots & _).
  split; [exact Hdot | exact Hdots].
Defined.

(** ** Further properties of the code *)

(** *** Strings *)

Lemma eqb_refl (s : str) : Py.eqb s s = true.
Proof. unfold Py.eqb. destruct (list_eq_dec N.eq_dec s s); congruence. Qed.

Lemma eqb_eq (a b : str) : Py.eqb a b = true <-> a = b.
Proof.
  unfold Py.eqb. destruct (list_eq_dec N.eq_dec a b); split; congruence.
Qed.

Lemma lstrip_keeps (s : str) (c : char) :
  In c s -> isspace c = false -> In c (lstrip s).
Proof.
  induction s as [|a s IH]; simpl; [tauto|].
  intros Hin Hc. destruct (isspace a) eqn:Ha.
  - destruct Hin as [-> | Hin]; [congruence | now apply IH].
  - exact Hin.
Qed.

(** A character that is not whitespace survives [strip]. *)
Lemma strip_keeps (s : str) (c : char) :
  In c s -> isspace c = false -> In c (strip s).
Proof.
  intros Hin Hc. unfold strip, rstrip.
  apply in_rev. rewrite rev_involutive.
  apply lstrip_keeps; [|exact Hc].
  apply -> in_rev. now apply lstrip_keeps.
Qed.

Lemma strip_nonblank (s : str) (c : char) :
  In c s -> isspace c = false -> strip s <> [].
Proof.
  intros Hin Hc Hs. pose proof (strip_keeps s c Hin Hc) as H.
  rewrite Hs in H. exact H.
Qed.

Lemma lstrip_head (c : char) (s : str) :
  isspace c = false -> lstrip (c :: s) = c :: s.
Proof. intros H. simpl. now rewrite H. Qed.

(** [strip] leaves a text alone whose first and last characters are not
    whitespace. *)
Lemma strip_trimmed (c : char) (s : str) (d : char) :
  isspace c = false -> isspace d = false ->
  strip (c :: s ++ [d]) = c :: s ++ [d].
Proof.
  intros Hc Hd. unfold strip, rstrip. rewrite (lstrip_head _ _ Hc).
  assert (Hrev : rev (c :: s ++ [d]) = d :: rev (c :: s)).
  { change (c :: s ++ [d]) with ((c :: s) ++ [d]).
    now rewrite rev_app_distr. }
  rewrite Hrev, (lstrip_head _ _ Hd), <- Hrev. apply rev_involutive.
Qed.

Lemma strip_single (c : char) : isspace c = false -> strip [c] = [c].
Proof. intros Hc. unfold strip, rstrip. simpl. rewrite Hc. simpl. now rewrite Hc. Qed.

Lemma contains_app (pre x post : str) : contains (pre ++ x ++ post) x = true.
Proof.
  assert (Hsw : forall y z : str, startswith (y ++ z) y = true).
  { induction y as [|a y IH]; intros z; simpl; [reflexivity|].
    now rewrite N.eqb_refl, IH. }
  induction pre as [|a pre IH].
  - simpl app. destruct (x ++ post) eqn:E.
    + simpl. rewrite <- E. now rewrite Hsw.
    + simpl. rewrite <- E. now rewrite Hsw.
  - simpl. rewrite IH. apply orb_true_r.
Qed.

(** *** Path segments of a sanitized text *)

Lemma split_sep_segment (s cur seg : str) :
  In seg (split_sep cur s) ->
  exists pre post, rev cur ++ s = pre ++ seg ++ post.
Proof.
  revert cur. induction s as [|c t IH]; intros cur; simpl.
  - intros [<- | []]. exists [], []. now rewrite !app_nil_r.
  - destruct (N.eqb c SLASH).
    + intros [<- | Hin].
      * exists [], (c :: t). reflexivity.
      * destruct (IH [] Hin) as (pre & post & Heq). simpl in Heq.
        exists (rev cur ++ c :: pre), post. rewrite Heq.
        now rewrite <- app_assoc.
    + intros Hin. destruct (IH (c :: cur) Hin) as (pre & post & Heq).
      exists pre, post. rewrite <- Heq. simpl. now rewrite <- app_assoc.
Qed.

Lemma path_segments_in_text (s seg : str) :
  startswith s [SLASH] = false ->
  In seg (tail (Path s)) -> contains s seg = true.
Proof.
  intros Hrel Hin.
  assert (Hroot : splitroot s = ([], s)).
  { destruct s as [|c t]; [reflexivity|].
    simpl in Hrel. rewrite andb_true_r in Hrel.
    unfold splitroot. unfold SLASH in Hrel.
    destruct c as [|c]; [reflexivity|].
    destruct (N.eqb_spec (N.pos c) 0x2F) as [E|E]; [discriminate|].
    do 6 (destruct c as [c|c|]; try reflexivity).
    now contradiction E. }
  unfold Path in Hin. rewrite Hroot in Hin. simpl in Hin.
  apply filter_In in Hin. destruct Hin as [Hin _].
  destruct (split_sep_segment _ _ _ Hin) as (pre & post & Heq).
  simpl in Heq. rewrite Heq. apply contains_app.
Qed.

Ltac not_slash c H :=
  destruct c as [|c]; [reflexivity|];
  do 6 (destruct c as [c|c|]; try reflexivity);
  exfalso; apply H; reflexivity.

Lemma splitroot_app (s : str) : s = fst (splitroot s) ++ snd (splitroot s).
Proof.
  destruct s as [|c1 s]; [reflexivity|].
  destruct (N.eq_dec c1 0x2F) as [-> | H1]; [|not_slash c1 H1].
  destruct s as [|c2 s]; [reflexivity|].
  destruct (N.eq_dec c2 0x2F) as [-> | H2]; [|not_slash c2 H2].
  destruct s as [|c3 s]; [reflexivity|].
  destruct (N.eq_dec c3 0x2F) as [-> | H3]; [reflexivity | not_slash c3 H3].
Qed.

Lemma path_segment_in_text (s seg : str) :
  In seg (tail (Path s)) -> contains s seg = true.
Proof.
  intros Hin. unfold Path in Hin.
  rewrite (splitroot_app s) at 1.
  destruct (splitroot s) as [r rel]. simpl in *.
  apply filter_In in Hin. destruct Hin as [Hin _].
  destruct (split_sep_segment _ _ _ Hin) as (pre & post & Heq).
  simpl in Heq. rewrite Heq, app_assoc. apply contains_app.
Qed.

Lemma sanitize_path_no_parent_segment (path : str) :
  ~ In (lit "..") (tail (Path (sanitize_path path))).
Proof.
  intros Hin. apply path_segment_in_text in Hin.
  rewrite sanitize_path_no_dotdot in Hin. discriminate.
Qed.

(** X1: the server's sanitization leaves no character of the class
    [;&|`$(){}], no two adjacent dots and hence no [..] path segment. *)
Theorem sanitize_path_clean (path : str) :
  Forall (fun c => dangerous c = false) (sanitize_path path)
  /\ contains (sanitize_path path) (lit "..") = false
  /\ ~ In (lit "..") (tail (Path (sanitize_path path))).
Proof.
  split; [|split].
  - apply Forall_forall. intros c. apply sanitize_path_no_dangerous.
  - apply sanitize_path_no_dotdot.
  - apply sanitize_path_no_parent_segment.
Qed.

(** *** Confinement without symbolic links *)








(** *** Tokens of a command text *)

Ltac bool_cases E :=
  repeat (apply orb_prop in E; destruct E as [E | E]);
  repeat match goal with
         | H : (_ && _)%bool = true |- _ =>
           apply andb_prop in H; destruct H
         end;
  repeat match goal with
         | H : (_ <=? _)%N = true |- _ => apply N.leb_le in H
         | H : (_ =? _)%N = true |- _ => apply N.eqb_eq in H
         end.

Lemma digit_not_space (c : char) :
  ((0x30 <=? c) && (c <=? 0x39))%N = true -> isspace c = false.
Proof.
  intros H. apply andb_prop in H. destruct H as [Hlo Hhi].
  apply N.leb_le in Hlo, Hhi.
  destruct (isspace c) eqn:E; [|reflexivity].
  exfalso. unfold isspace in E. bool_cases E; lia.
Qed.

Lemma hex_not_space (c : char) : not_hex c = false -> isspace c = false.
Proof.
  intros H. unfold not_hex in H. apply negb_false_iff in H.
  destruct (isspace c) eqn:E; [|reflexivity].
  exfalso. unfold isspace in E. bool_cases H; bool_cases E; lia.
Qed.

Lemma split_from_word (tok cur rest : str) :
  Forall (fun c => isspace c = false) tok ->
  split_from cur (tok ++ rest) = split_from (rev tok ++ cur) rest.
Proof.
  intros Htok. revert cur.
  induction Htok as [|a tok Ha _ IH]; intros cur; [reflexivity|].
  simpl. rewrite Ha, IH. now rewrite <- app_assoc.
Qed.

(** A word without whitespace is one token. *)
Lemma split_word (tok : str) :
  tok <> [] -> Forall (fun c => isspace c = false) tok -> split tok = [tok].
Proof.
  intros Hne Htok. unfold split.
  rewrite <- (app_nil_r tok) at 1. rewrite split_from_word by exact Htok.
  simpl. rewrite app_nil_r.
  destruct (rev tok) eqn:E.
  - exfalso. apply Hne. rewrite <- (rev_involutive tok), E. reflexivity.
  - rewrite <- E. now rewrite rev_involutive.
Qed.

(** A word followed by a blank is one token, then the rest. *)
Lemma split_word_then (tok rest : str) :
  tok <> [] -> Forall (fun c => isspace c = false) tok ->
  split_from [] (tok ++ 0x20%N :: rest) = tok :: split_from [] rest.
Proof.
  intros Hne Htok. rewrite split_from_word by exact Htok.
  rewrite app_nil_r. simpl.
  destruct (rev tok) eqn:E.
  - exfalso. apply Hne. rewrite <- (rev_involutive tok), E. reflexivity.
  - rewrite <- E. now rewrite rev_involutive.
Qed.

(** The tokens of a text are made of its characters. *)
Lemma split_from_chars (s cur tok : str) (c : char) :
  In tok (split_from cur s) -> In c tok -> In c (cur ++ s).
Proof.
  revert cur. induction s as [|a s IH]; intros cur; simpl.
  - destruct cur as [|x cur]; [intros []|].
    intros [<- | []] Hc. rewrite app_nil_r. now apply in_rev.
  - destruct (isspace a).
    + destruct cur as [|x cur].
      * intros Hin Hc. right. exact (IH [] Hin Hc).
      * intros [<- | Hin] Hc.
        -- apply in_or_app. left. now apply in_rev.
        -- apply in_or_app. right. right. exact (IH [] Hin Hc).
    + intros Hin Hc. specialize (IH (a :: cur) Hin Hc).
      apply in_app_or in IH. apply in_or_app.
      destruct IH as [[-> | H] | H]; [right; now left | now left | right; now right].
Qed.

Lemma decimal_1_100 (n : Z) :
  (1 <= n <= 100)%Z ->
  str_of_int n <> []
  /\ Forall (fun c => ((0x30 <=? c) && (c <=? 0x39))%N = true) (str_of_int n).
Proof.
  intros Hn.
  assert (Hall : forallb
                   (fun k => negb (falsy (str_of_int (Z.of_nat k)))
                             && forallb (fun c => (0x30 <=? c) && (c <=? 0x39))%N
                                  (str_of_int (Z.of_nat k)))
                   (seq 1 100) = true) by (vm_compute; reflexivity).
  rewrite forallb_forall in Hall.
  specialize (Hall (Z.to_nat n)).
  rewrite Z2Nat.id in Hall by lia.
  assert (Hin : In (Z.to_nat n) (seq 1 100)) by (apply in_seq; lia).
  apply Hall in Hin. apply andb_prop in Hin. destruct Hin as [Hne Hdig].
  split.
  - apply negb_true_iff in Hne. now apply falsy_false.
  - apply Forall_forall. rewrite forallb_forall in Hdig. exact Hdig.
Qed.

Lemma limit_int_range (rt : Runtime) (limit : str) :
  (1 <= limit_int rt limit <= 100)%Z.
Proof.
  unfold limit_int.
  destruct (if falsy (strip limit) then Some 10%Z else int rt limit) as [n|];
    [|lia].
  destruct (n <? 1)%Z eqn:Hlo; simpl; [lia|].
  destruct (100 <? n)%Z eqn:Hhi; [lia|].
  apply Z.ltb_ge in Hlo, Hhi. lia.
Qed.

(** X3: whatever the limit text, the number [repo_log] and
    [repo_file_history] pass to [git log -n] lies in 1..100 and reaches
    git as one argument made of decimal digits; the file path of
    [repo_file_history] follows a [--] separator. *)
Theorem log_limit_is_one_decimal_token
    (w : World) (repo_name repo_path file_path limit : str) (tr : Trace) :
  accepted w repo_name repo_path ->
  is_repository w repo_path ->
  sanitize_path file_path <> [] ->
  exists n : Z,
    n = limit_int (runtime w) limit
    /\ (1 <= n <= 100)%Z
    /\ Forall (fun c => ((0x30 <=? c) && (c <=? 0x39))%N = true) (str_of_int n)
    /\ snd (repo_log w repo_name limit tr)
       = tr ++ [git_call repo_path
                  [lit "log"; lit "--oneline"; lit "-n"; str_of_int n]]
    /\ snd (repo_file_history w repo_name file_path limit tr)
       = tr ++ [git_call repo_path
                  ([lit "log"; lit "--oneline"; lit "-n"; str_of_int n;
                    lit "--"] ++ split (sanitize_path file_path))].
Proof.
  intros Hacc Hrepo Hfile.
  exists (limit_int (runtime w) limit).
  pose proof (limit_int_range (runtime w) limit) as Hrange.
  destruct (decimal_1_100 _ Hrange) as (Hne & Hdig).
  assert (Hword : Forall (fun c => isspace c = false)
                    (str_of_int (limit_int (runtime w) limit))).
  { eapply Forall_impl; [|exact Hdig]. intros c. apply digit_not_space. }
  split; [reflexivity|]. split; [exact Hrange|]. split; [exact Hdig|]. split.
  - rewrite (repo_log_trace w repo_name repo_path tr Hacc limit Hrepo).
    change (split (lit "log --oneline -n "
                   ++ str_of_int (limit_int (runtime w) limit)))
      with (lit "log" :: lit "--oneline" :: lit "-n"
            :: split (str_of_int (limit_int (runtime w) limit))).
    now rewrite (split_word _ Hne Hword).
  - rewrite (repo_file_history_trace w repo_name repo_path tr Hacc
               file_path limit Hrepo Hfile).
    change (split (lit "log --oneline -n "
                   ++ str_of_int (limit_int (runtime w) limit)
                   ++ lit " -- " ++ sanitize_path file_path))
      with (lit "log" :: lit "--oneline" :: lit "-n"
            :: split_from []
                 (str_of_int (limit_int (runtime w) limit)
                  ++ 0x20%N :: lit "-- " ++ sanitize_path file_path)).
    rewrite (split_word_then _ _ Hne Hword). reflexivity.
Qed.

Lemma log_limit_is_one_decimal_token_witness :
  (accepted (Demo.world Demo.quiet) (lit "demo") (lit "/repos/demo")
   /\ is_repository (Demo.world Demo.quiet) (lit "/repos/demo")
   /\ sanitize_path (lit "src/main.c") <> [])
  /\ exists n : Z,
       n = limit_int (runtime (Demo.world Demo.quiet)) (lit " 7 ")
       /\ (1 <= n <= 100)%Z
       /\ Forall (fun c => ((0x30 <=? c) && (c <=? 0x39))%N = true)
            (str_of_int n)
       /\ snd (repo_log (Demo.world Demo.quiet) (lit "demo") (lit " 7 ") [])
          = [] ++ [git_call (lit "/repos/demo")
                     [lit "log"; lit "--oneline"; lit "-n"; str_of_int n]]
       /\ snd (repo_file_history (Demo.world Demo.quiet) (lit "demo")
                 (lit "src/main.c") (lit " 7 ") [])
          = [] ++ [git_call (lit "/repos/demo")
                     ([lit "log"; lit "--oneline"; lit "-n"; str_of_int n;
                       lit "--"] ++ split (sanitize_path (lit "src/main.c")))].
Proof.
  assert (Hacc : accepted (Demo.world Demo.quiet) (lit "demo")
                   (lit "/repos/demo")).
  { split; [vm_compute; reflexivity | vm_compute; discriminate]. }
  assert (Hrepo : is_repository (Demo.world Demo.quiet) (lit "/repos/demo")).
  { split; [vm_compute; discriminate|]. split; vm_compute; reflexivity. }
  assert (Hfile : sanitize_path (lit "src/main.c") <> [])
    by (vm_compute; discriminate).
  split; [split; [exact Hacc | split; [exact Hrepo | exact Hfile]]|].
  exact (log_limit_is_one_decimal_token (Demo.world Demo.quiet) (lit "demo")
           (lit "/repos/demo") (lit "src/main.c") (lit " 7 ") []
           Hacc Hrepo Hfile).
Defined.

(** *** What the handlers spawn *)

Lemma run_git_command_trace_cases
    (w : World) (repo_path args : str) (timeout : Z) (tr : Trace) :
  (is_repository w repo_path
   /\ snd (run_git_command w repo_path args timeout tr)
      = tr ++ [{| argv := [lit "git"; lit "-C"; repo_path] ++ split args;
                  timeout_of := timeout |}])
  \/ (~ is_repository w repo_path
      /\ snd (run_git_command w repo_path args timeout tr) = tr).
Proof.
  destruct (falsy repo_path) eqn:Hf.
  - right. apply falsy_true in Hf. split.
    + intros (Hne & _). contradiction.
    + rewrite run_git_command_invalid by now left. reflexivity.
  - apply falsy_false in Hf. destruct (isdir w repo_path) eqn:Hd.
    + destruct (stat_exists w (joinpath (Path repo_path) (lit ".git")))
        as [[|]|] eqn:Hs.
      * left.
        assert (Hrepo : is_repository w repo_path) by (repeat split; auto).
        split; [exact Hrepo|]. now apply run_git_command_trace.
      * right. split; [intros (_ & _ & H); congruence|].
        now rewrite run_git_command_not_git.
      * right. split; [intros (_ & _ & H); congruence|].
        now rewrite run_git_command_stat_raises.
    + right. split; [intros (_ & H & _); congruence|].
      rewrite run_git_command_invalid by now right. reflexivity.
Qed.

Lemma spawns_git_in_refl (w : World) (p : str) (tr : Trace) :
  spawns_git_in w p tr tr.
Proof.
  exists []. split; [now rewrite app_nil_r|]. split; [constructor|].
  intros H. now contradiction H.
Qed.

Lemma spawns_git_in_trans (w : World) (p : str) (tr1 tr2 tr3 : Trace) :
  spawns_git_in w p tr1 tr2 -> spawns_git_in w p tr2 tr3 ->
  spawns_git_in w p tr1 tr3.
Proof.
  intros (e1 & -> & Hall1 & Hrep1) (e2 & -> & Hall2 & Hrep2).
  exists (e1 ++ e2). split; [now rewrite app_assoc|]. split.
  - apply Forall_app. now split.
  - intros Hne. destruct e1 as [|i e1].
    + apply Hrep2. exact Hne.
    + apply Hrep1. discriminate.
Qed.

Section Confined.
Variable w : World.
Variable p : str.

Lemma confined_ret {A : Type} (a : A) : confined w p (ret a).
Proof. intros tr. apply spawns_git_in_refl. Qed.

Lemma confined_bind {A B : Type} (m : Proc A) (k : A -> Proc B) :
  confined w p m -> (forall a, confined w p (k a)) -> confined w p (bind m k).
Proof.
  intros Hm Hk tr. unfold bind. specialize (Hm tr).
  destruct (m tr) as [[a | e] tr1]; simpl in Hm.
  - eapply spawns_git_in_trans; [exact Hm | apply Hk].
  - exact Hm.
Qed.

Lemma confined_catch {A : Type} (m : Proc A) (handler : Exn -> Proc A) :
  confined w p m -> (forall e, confined w p (handler e)) ->
  confined w p (catch m handler).
Proof.
  intros Hm Hh tr. unfold catch. specialize (Hm tr).
  destruct (m tr) as [[a | e] tr1]; simpl in Hm.
  - exact Hm.
  - eapply spawns_git_in_trans; [exact Hm | apply Hh].
Qed.

Lemma confined_if {A : Type} (b : bool) (m1 m2 : Proc A) :
  confined w p m1 -> confined w p m2 -> confined w p (if b then m1 else m2).
Proof. now destruct b. Qed.

Lemma confined_run_git_command (args : str) :
  confined w p (run_git_command w p args GIT_TIMEOUT).
Proof.
  intros tr.
  destruct (run_git_command_trace_cases w p args GIT_TIMEOUT tr)
    as [(Hrepo & ->) | (_ & ->)].
  - exists [git_call p (split args)].
    split; [reflexivity|]. split; [|now intros _].
    constructor; [|constructor]. now exists (split args).
  - apply spawns_git_in_refl.
Qed.

End Confined.

Ltac confine :=
  repeat first
    [ apply confined_ret
    | apply confined_run_git_command
    | apply confined_if
    | apply confined_bind; [|intros ?]
    | apply confined_catch; [|intros ?] ].

(** X4: every tool that runs git is confined to the path the resolver
    returned for its repository name: whatever the arguments, the
    processes it adds are [git -C] on that path with the 30-unit timeout,
    and it adds one only if that path is an existing directory with a
    [.git] entry. *)
Theorem tools_spawn_only_git_in_resolved_repository
    (w : World) (h : Host) (repo_name arg1 arg2 : str) :
  confined w (get_repo_path w repo_name) (repo_status w repo_name)
  /\ confined w (get_repo_path w repo_name) (repo_log w repo_name arg1)
  /\ confined w (get_repo_path w repo_name) (repo_branches w repo_name)
  /\ confined w (get_repo_path w repo_name) (repo_diff w repo_name arg1)
  /\ confined w (get_repo_path w repo_name) (repo_remote w repo_name)
  /\ confined w (get_repo_path w repo_name) (repo_current_branch w repo_name)
  /\ confined w (get_repo_path w repo_name)
       (repo_show_commit w repo_name arg1)
  /\ confined w (get_repo_path w repo_name)
       (repo_file_history w repo_name arg1 arg2)
  /\ confined w (get_repo_path w repo_name) (repo_search w repo_name arg1)
  /\ confined w (get_repo_path w repo_name) (repo_stats w h repo_name).
Proof.
  repeat split.
  - unfold repo_status. confine.
  - unfold repo_log. confine.
  - unfold repo_branches. confine.
  - unfold repo_diff. confine.
  - unfold repo_remote. confine.
  - unfold repo_current_branch. confine.
  - unfold repo_show_commit. confine.
  - unfold repo_file_history. confine.
  - unfold repo_search. confine.
  - unfold repo_stats. confine.
Qed.

Lemma snd_bind_pure {A B : Type} (m : Proc A) (k : A -> Proc B) (tr : Trace) :
  (forall a tr', snd (k a tr') = tr') -> snd (bind m k tr) = snd (m tr).
Proof.
  intros Hk. unfold bind. destruct (m tr) as [[a|e] tr']; [apply Hk | reflexivity].
Qed.

(** X5: whatever the hash text, [repo_show_commit] either runs no process or
    runs exactly [git -C path show H] where [H] is one non-empty argument
    made only of the characters [0-9a-fA-F]. *)
Theorem show_commit_argument_is_hex
    (w : World) (repo_name commit_hash : str) (tr : Trace) :
  snd (repo_show_commit w repo_name commit_hash tr) = tr
  \/ exists hash,
       hash <> []
       /\ Forall (fun c => not_hex c = false) hash
       /\ snd (repo_show_commit w repo_name commit_hash tr)
          = tr ++ [git_call (get_repo_path w repo_name) [lit "show"; hash]].
Proof.
  unfold repo_show_commit.
  destruct (falsy (strip repo_name)); [now left|].
  destruct (falsy (strip commit_hash)); [now left|].
  destruct (falsy (get_repo_path w repo_name)); [now left|].
  destruct (falsy (re_sub_class not_hex (strip commit_hash))) eqn:Hh;
    [now left|].
  apply falsy_false in Hh.
  assert (Hhex : Forall (fun c => not_hex c = false)
                   (re_sub_class not_hex (strip commit_hash))).
  { apply Forall_forall. intros c Hc. unfold re_sub_class in Hc.
    apply filter_In in Hc. destruct Hc as [_ Hc].
    now apply negb_true_iff in Hc. }
  rewrite snd_bind_ret.
  destruct (run_git_command_trace_cases w (get_repo_path w repo_name)
              (lit "show " ++ re_sub_class not_hex (strip commit_hash))
              GIT_TIMEOUT tr) as [(_ & ->) | (_ & ->)]; [right | now left].
  exists (re_sub_class not_hex (strip commit_hash)).
  split; [exact Hh|]. split; [exact Hhex|].
  change (split (lit "show " ++ re_sub_class not_hex (strip commit_hash)))
    with (lit "show" :: split (re_sub_class not_hex (strip commit_hash))).
  rewrite (split_word _ Hh).
  - reflexivity.
  - eapply Forall_impl; [|exact Hhex]. intros c. apply hex_not_space.
Qed.

(** *** The executor on a repository *)

Lemma run_git_command_spawned
    (w : World) (repo_path args : str) (timeout : Z) (tr : Trace) :
  is_repository w repo_path ->
  run_git_command w repo_path args timeout tr
  = (Ok (report_of timeout
           (subprocess_run w tr
              ([lit "git"; lit "-C"; repo_path] ++ split args) timeout)),
     tr ++ [{| argv := [lit "git"; lit "-C"; repo_path] ++ split args;
               timeout_of := timeout |}]).
Proof.
  intros (Hne & Hdir & Hgit). unfold run_git_command.
  apply falsy_false in Hne. rewrite Hne, Hdir.
  unfold bind, path_exists, spawn. rewrite Hgit.
  cbn [orb negb]. cbv beta iota.
  destruct (subprocess_run w tr
              ([lit "git"; lit "-C"; repo_path] ++ split args) timeout)
    as [so se rc| |m]; unfold report_of.
  - destruct (rc =? 0)%Z; reflexivity.
  - reflexivity.
  - reflexivity.
Qed.

(** X6: a git that times out or cannot be started does not make the executor
    raise: it answers the time-out text with the timeout it was given,
    respectively the error text with the message of the exception.  The
    executor raises only when the test for [.git] itself raises, and then
    it has spawned nothing. *)
Theorem executor_raises_only_on_stat
    (w : World) (repo_path args : str) (timeout : Z) (tr : Trace) :
  ((exists text, fst (run_git_command w repo_path args timeout tr) = Ok text)
   \/ (stat_exists w (joinpath (Path repo_path) (lit ".git")) = None
       /\ run_git_command w repo_path args timeout tr = (Raise OSError, tr)))
  /\ (is_repository w repo_path ->
      subprocess_run w tr ([lit "git"; lit "-C"; repo_path] ++ split args)
        timeout = TimeoutExpired ->
      fst (run_git_command w repo_path args timeout tr)
      = Ok (lit "⏱️ Command timed out after " ++ str_of_int timeout
            ++ lit " seconds"))
  /\ (forall message,
        is_repository w repo_path ->
        subprocess_run w tr ([lit "git"; lit "-C"; repo_path] ++ split args)
          timeout = Failed message ->
        fst (run_git_command w repo_path args timeout tr)
        = Ok (lit "❌ Error executing git command: " ++ message)).
Proof.
  split; [|split].
  - destruct (falsy repo_path) eqn:Hf.
    + left. apply falsy_true in Hf.
      rewrite run_git_command_invalid by now left. now eexists.
    + apply falsy_false in Hf. destruct (isdir w repo_path) eqn:Hd.
      * destruct (stat_exists w (joinpath (Path repo_path) (lit ".git")))
          as [[|]|] eqn:Hs.
        -- left. rewrite run_git_command_spawned by (repeat split; auto).
           now eexists.
        -- left. rewrite run_git_command_not_git by assumption. now eexists.
        -- right. split; [reflexivity|].
           now apply run_git_command_stat_raises.
      * left. rewrite run_git_command_invalid by now right. now eexists.
  - intros Hrepo Hrun. rewrite run_git_command_spawned by exact Hrepo.
    now rewrite Hrun.
  - intros message Hrepo Hrun.
    rewrite run_git_command_spawned by exact Hrepo. now rewrite Hrun.
Qed.

Lemma executor_raises_only_on_stat_witness :
  (is_repository (Demo.world (Demo.answers TimeoutExpired)) (lit "/repos/demo")
   /\ fst (run_git_command (Demo.world (Demo.answers TimeoutExpired))
             (lit "/repos/demo") (lit "log") 5 [])
      = Ok (lit "⏱️ Command timed out after 5 seconds"))
  /\ (is_repository
        (Demo.world (Demo.answers (Failed (lit "No such file: 'git'"))))
        (lit "/repos/demo")
      /\ fst (run_git_command
                (Demo.world (Demo.answers (Failed (lit "No such file: 'git'"))))
                (lit "/repos/demo") (lit "log") 5 [])
         = Ok (lit "❌ Error executing git command: No such file: 'git'")).
Proof.
  assert (H1 : is_repository (Demo.world (Demo.answers TimeoutExpired))
                 (lit "/repos/demo")).
  { split; [vm_compute; discriminate|]. split; vm_compute; reflexivity. }
  assert (H2 : is_repository
                 (Demo.world (Demo.answers (Failed (lit "No such file: 'git'"))))
                 (lit "/repos/demo")).
  { split; [vm_compute; discriminate|]. split; vm_compute; reflexivity. }
  split.
  - split; [exact H1|].
    exact (proj1 (proj2 (executor_raises_only_on_stat
                           (Demo.world (Demo.answers TimeoutExpired))
                           (lit "/repos/demo") (lit "log") 5 []))
             H1 eq_refl).
  - split; [exact H2|].
    exact (proj2 (proj2 (executor_raises_only_on_stat
                           (Demo.world
                              (Demo.answers (Failed (lit "No such file: 'git'"))))
                           (lit "/repos/demo") (lit "log") 5 []))
             (lit "No such file: 'git'") H2 eq_refl).
Defined.

Lemma bind_run_git_command {B : Type}
    (w : World) (repo_path args : str) (timeout : Z) (k : str -> Proc B)
    (tr : Trace) :
  is_repository w repo_path ->
  bind (run_git_command w repo_path args timeout) k tr
  = k (report_of timeout
         (subprocess_run w tr
            ([lit "git"; lit "-C"; repo_path] ++ split args) timeout))
      (tr ++ [{| argv := [lit "git"; lit "-C"; repo_path] ++ split args;
                 timeout_of := timeout |}]).
Proof.
  intros Hrepo. unfold bind. now rewrite run_git_command_spawned.
Qed.

Lemma bounded_short (output : str) :
  (len output <= MAX_OUTPUT_LENGTH)%nat -> bounded output = output.
Proof.
  intros H. unfold bounded. apply Nat.ltb_ge in H. now rewrite H.
Qed.

Lemma report_of_quiet (timeout : Z) (stdout stderr : str) :
  strip (captured stdout stderr) = [] ->
  (len (captured stdout stderr) <= MAX_OUTPUT_LENGTH)%nat ->
  report_of timeout (Completed stdout stderr 0)
  = lit "✅ Command completed successfully".
Proof.
  intros Hblank Hshort. unfold report_of.
  rewrite Z.eqb_refl, (bounded_short _ Hshort), Hblank. reflexivity.
Qed.

(** *** Tools that interpret the text of the executor *)

(** X7: when git exits with status 0 and prints nothing but whitespace (at
    most 10000 characters of it), [repo_diff] without a file path answers
    that there are no changes in the repository and [repo_remote] that no
    remotes are configured, instead of an empty report. *)
Theorem quiet_git_gives_nothing_to_report
    (w : World) (repo_name repo_path file_path : str) (tr : Trace)
    (stdout stderr : str) :
  accepted w repo_name repo_path ->
  is_repository w repo_path ->
  strip file_path = [] ->
  strip (captured stdout stderr) = [] ->
  (len (captured stdout stderr) <= MAX_OUTPUT_LENGTH)%nat ->
  (subprocess_run w tr [lit "git"; lit "-C"; repo_path; lit "diff"] GIT_TIMEOUT
   = Completed stdout stderr 0 ->
   repo_diff w repo_name file_path tr
   = (Ok (lit "✅ No changes in repository"),
      tr ++ [git_call repo_path [lit "diff"]]))
  /\ (subprocess_run w tr
        [lit "git"; lit "-C"; repo_path; lit "remote"; lit "-v"] GIT_TIMEOUT
      = Completed stdout stderr 0 ->
      repo_remote w repo_name tr
      = (Ok (lit "🌐 No remotes configured for " ++ repo_name),
         tr ++ [git_call repo_path [lit "remote"; lit "-v"]])).
Proof.
  intros Hacc Hrepo Hfile Hblank Hshort.
  pose proof (accepted_nonblank w repo_name repo_path Hacc) as Hname.
  destruct Hacc as (Hpath & Hne).
  apply falsy_false in Hname, Hne. split; intros Hrun.
  - unfold repo_diff. rewrite Hname, Hpath, Hne, Hfile.
    cbn [falsy negb]. cbv zeta.
    rewrite (bind_run_git_command _ _ _ _ _ _ Hrepo).
    change ([lit "git"; lit "-C"; repo_path] ++ split (lit "diff"))
      with [lit "git"; lit "-C"; repo_path; lit "diff"].
    rewrite Hrun, (report_of_quiet _ _ _ Hblank Hshort).
    rewrite eqb_refl, orb_true_r. reflexivity.
  - unfold repo_remote. rewrite Hname, Hpath, Hne.
    rewrite (bind_run_git_command _ _ _ _ _ _ Hrepo).
    change ([lit "git"; lit "-C"; repo_path] ++ split (lit "remote -v"))
      with [lit "git"; lit "-C"; repo_path; lit "remote"; lit "-v"].
    rewrite Hrun, (report_of_quiet _ _ _ Hblank Hshort).
    rewrite eqb_refl, orb_true_r. reflexivity.
Qed.

Lemma quiet_git_gives_nothing_to_report_witness :
  (accepted (Demo.world (Demo.answers (Completed LF [] 0))) (lit "demo")
     (lit "/repos/demo")
   /\ is_repository (Demo.world (Demo.answers (Completed LF [] 0)))
        (lit "/repos/demo")
   /\ strip (lit "  ") = []
   /\ strip (captured LF []) = []
   /\ (len (captured LF []) <= MAX_OUTPUT_LENGTH)%nat)
  /\ repo_diff (Demo.world (Demo.answers (Completed LF [] 0))) (lit "demo")
       (lit "  ") []
     = (Ok (lit "✅ No changes in repository"),
        [] ++ [git_call (lit "/repos/demo") [lit "diff"]])
  /\ repo_remote (Demo.world (Demo.answers (Completed LF [] 0))) (lit "demo") []
     = (Ok (lit "🌐 No remotes configured for " ++ lit "demo"),
        [] ++ [git_call (lit "/repos/demo") [lit "remote"; lit "-v"]]).
Proof.
  assert (Hacc : accepted (Demo.world (Demo.answers (Completed LF [] 0)))
                   (lit "demo") (lit "/repos/demo")).
  { split; [vm_compute; reflexivity | vm_compute; discriminate]. }
  assert (Hrepo : is_repository (Demo.world (Demo.answers (Completed LF [] 0)))
                    (lit "/repos/demo")).
  { split; [vm_compute; discriminate|]. split; vm_compute; reflexivity. }
  assert (Hfile : strip (lit "  ") = []) by (vm_compute; reflexivity).
  assert (Hblank : strip (captured LF []) = []) by (vm_compute; reflexivity).
  assert (Hshort : (len (captured LF []) <= MAX_OUTPUT_LENGTH)%nat).
  { apply Nat.leb_le. vm_compute. reflexivity. }
  split; [repeat (split; [assumption|]); assumption|].
  destruct (quiet_git_gives_nothing_to_report
              (Demo.world (Demo.answers (Completed LF [] 0)))
              (lit "demo") (lit "/repos/demo") (lit "  ") [] LF []
              Hacc Hrepo Hfile Hblank Hshort) as (Hdiff & Hremote).
  split; [exact (Hdiff eq_refl) | exact (Hremote eq_refl)].
Defined.

(** X8: [repo_current_branch] answers the branch name git printed, trimmed
    of surrounding whitespace, when git exits with status 0; when git
    exits with another status the degraded text of the executor is
    passed on unchanged, without the branch prefix. *)
Theorem current_branch_trimmed_or_error_passed_on
    (w : World) (repo_name repo_path : str) (tr : Trace)
    (stdout stderr : str) (returncode : Z) :
  accepted w repo_name repo_path ->
  is_repository w repo_path ->
  subprocess_run w tr
    [lit "git"; lit "-C"; repo_path; lit "branch"; lit "--show-current"]
    GIT_TIMEOUT
  = Completed stdout stderr returncode ->
  (returncode = 0%Z ->
   (len (captured stdout stderr) <= MAX_OUTPUT_LENGTH)%nat ->
   strip (captured stdout stderr) <> [] ->
   startswith (captured stdout stderr) (lit "❌") = false ->
   startswith (captured stdout stderr) (lit "⚠️") = false ->
   fst (repo_current_branch w repo_name tr)
   = Ok (lit "🌿 Current branch: " ++ strip (captured stdout stderr)))
  /\ (returncode <> 0%Z ->
      fst (repo_current_branch w repo_name tr)
      = Ok (lit "⚠️ Git command completed with status "
            ++ str_of_int returncode ++ lit ":" ++ LF
            ++ bounded (captured stdout stderr))).
Proof.
  intros Hacc Hrepo Hrun.
  pose proof (accepted_nonblank w repo_name repo_path Hacc) as Hname.
  destruct Hacc as (Hpath & Hne).
  apply falsy_false in Hname, Hne.
  unfold repo_current_branch. rewrite Hname, Hpath, Hne.
  rewrite (bind_run_git_command _ _ _ _ _ _ Hrepo).
  change ([lit "git"; lit "-C"; repo_path]
          ++ split (lit "branch --show-current"))
    with [lit "git"; lit "-C"; repo_path; lit "branch"; lit "--show-current"].
  rewrite Hrun. unfold report_of. split.
  - intros -> Hshort Hout Hx Hwarn. apply falsy_false in Hout.
    rewrite Z.eqb_refl, (bounded_short _ Hshort), Hout. cbv beta.
    rewrite Hout, Hx, Hwarn. reflexivity.
  - intros Hrc. apply Z.eqb_neq in Hrc. rewrite Hrc.
    assert (Hwarn : startswith
                      (lit "⚠️ Git command completed with status "
                       ++ str_of_int returncode ++ lit ":" ++ LF
                       ++ bounded (captured stdout stderr))
                      (lit "⚠️") = true) by reflexivity.
    rewrite Hwarn. cbn [negb]. rewrite andb_false_r. reflexivity.
Qed.

Lemma current_branch_trimmed_or_error_passed_on_witness :
  (accepted (Demo.world (Demo.answers (Completed (lit "main" ++ LF) [] 0)))
     (lit "demo") (lit "/repos/demo")
   /\ is_repository
        (Demo.world (Demo.answers (Completed (lit "main" ++ LF) [] 0)))
        (lit "/repos/demo"))
  /\ fst (repo_current_branch
            (Demo.world (Demo.answers (Completed (lit "main" ++ LF) [] 0)))
            (lit "demo") [])
     = Ok (lit "🌿 Current branch: "
           ++ strip (captured (lit "main" ++ LF) []))
  /\ fst (repo_current_branch
            (Demo.world
               (Demo.answers (Completed [] (lit "fatal: not a git repository")
                                128)))
            (lit "demo") [])
     = Ok (lit "⚠️ Git command completed with status " ++ str_of_int 128
           ++ lit ":" ++ LF
           ++ bounded (captured [] (lit "fatal: not a git repository"))).
Proof.
  assert (Hacc : forall c, accepted (Demo.world (Demo.answers c)) (lit "demo")
                             (lit "/repos/demo")).
  { intros c. split; [vm_compute; reflexivity | vm_compute; discriminate]. }
  assert (Hrepo : forall c, is_repository (Demo.world (Demo.answers c))
                              (lit "/repos/demo")).
  { intros c. split; [vm_compute; discriminate|].
    split; vm_compute; reflexivity. }
  split; [split; [apply Hacc | apply Hrepo]|]. split.
  - apply (proj1 (current_branch_trimmed_or_error_passed_on
                    (Demo.world (Demo.answers (Completed (lit "main" ++ LF) [] 0)))
                    (lit "demo") (lit "/repos/demo") [] (lit "main" ++ LF) [] 0
                    (Hacc _) (Hrepo _) eq_refl)).
    + reflexivity.
    + apply Nat.leb_le. vm_compute. reflexivity.
    + vm_compute. discriminate.
    + vm_compute. reflexivity.
    + vm_compute. reflexivity.
  - apply (proj2 (current_branch_trimmed_or_error_passed_on
                    (Demo.world
                       (Demo.answers
                          (Completed [] (lit "fatal: not a git repository") 128)))
                    (lit "demo") (lit "/repos/demo") []
                    [] (lit "fatal: not a git repository") 128
                    (Hacc _) (Hrepo _) eq_refl)).
    discriminate.
Defined.

(** X9: when git exits with status 0 and prints nothing but whitespace,
    at most 10000 characters of it (nothing at all on a detached HEAD for
    [git branch --show-current]), [repo_current_branch] takes the success
    sentinel of the executor for the branch name. *)
Theorem current_branch_of_silent_git_is_the_sentinel
    (w : World) (repo_name repo_path : str) (tr : Trace)
    (stdout stderr : str) :
  accepted w repo_name repo_path ->
  is_repository w repo_path ->
  subprocess_run w tr
    [lit "git"; lit "-C"; repo_path; lit "branch"; lit "--show-current"]
    GIT_TIMEOUT
  = Completed stdout stderr 0 ->
  strip (captured stdout stderr) = [] ->
  (len (captured stdout stderr) <= MAX_OUTPUT_LENGTH)%nat ->
  fst (repo_current_branch w repo_name tr)
  = Ok (lit "🌿 Current branch: ✅ Command completed successfully").
Proof.
  intros Hacc Hrepo Hrun Hblank Hshort.
  pose proof (accepted_nonblank w repo_name repo_path Hacc) as Hname.
  destruct Hacc as (Hpath & Hne).
  apply falsy_false in Hname, Hne.
  unfold repo_current_branch. rewrite Hname, Hpath, Hne.
  rewrite (bind_run_git_command _ _ _ _ _ _ Hrepo).
  change ([lit "git"; lit "-C"; repo_path]
          ++ split (lit "branch --show-current"))
    with [lit "git"; lit "-C"; repo_path; lit "branch"; lit "--show-current"].
  rewrite Hrun, (report_of_quiet _ _ _ Hblank Hshort). reflexivity.
Qed.

Lemma current_branch_of_silent_git_is_the_sentinel_witness :
  (accepted (Demo.world Demo.quiet) (lit "demo") (lit "/repos/demo")
   /\ is_repository (Demo.world Demo.quiet) (lit "/repos/demo")
   /\ strip (captured [] []) = []
   /\ (len (captured [] []) <= MAX_OUTPUT_LENGTH)%nat)
  /\ fst (repo_current_branch (Demo.world Demo.quiet) (lit "demo") [])
     = Ok (lit "🌿 Current branch: ✅ Command completed successfully").
Proof.
  assert (Hacc : accepted (Demo.world Demo.quiet) (lit "demo")
                   (lit "/repos/demo")).
  { split; [vm_compute; reflexivity | vm_compute; discriminate]. }
  assert (Hrepo : is_repository (Demo.world Demo.quiet) (lit "/repos/demo")).
  { split; [vm_compute; discriminate|]. split; vm_compute; reflexivity. }
  assert (Hblank : strip (captured [] []) = []) by reflexivity.
  assert (Hshort : (len (captured [] []) <= MAX_OUTPUT_LENGTH)%nat).
  { apply Nat.leb_le. vm_compute. reflexivity. }
  split; [repeat (split; [assumption|]); assumption|].
  exact (current_branch_of_silent_git_is_the_sentinel
           (Demo.world Demo.quiet) (lit "demo") (lit "/repos/demo") [] [] []
           Hacc Hrepo eq_refl Hblank Hshort).
Defined.

(** *** [repo_stats] *)

(** X10: [repo_stats] never raises, whatever the host does.  On a repository
    it runs exactly three git commands, in this order: the commit count,
    the short log of contributors, the list of branches. *)
Theorem stats_never_raises_and_runs_three_commands
    (w : World) (h : Host) (repo_name : str) (tr : Trace) :
  (exists text, fst (repo_stats w h repo_name tr) = Ok text)
  /\ (is_repository w (get_repo_path w repo_name) ->
      strip repo_name <> [] ->
      snd (repo_stats w h repo_name tr)
      = tr ++ [git_call (get_repo_path w repo_name)
                 [lit "rev-list"; lit "--count"; lit "HEAD"];
               git_call (get_repo_path w repo_name)
                 [lit "shortlog"; lit "-sn"; lit "--all"];
               git_call (get_repo_path w repo_name)
                 [lit "branch"; lit "-a"]]).
Proof.
  split.
  - unfold repo_stats.
    destruct (falsy (strip repo_name)); [now eexists|].
    destruct (falsy (get_repo_path w repo_name)); [now eexists|].
    unfold catch.
    match goal with
    | |- context [match ?m tr with _ => _ end] =>
      destruct (m tr) as [[text | e] tr']
    end.
    + now exists text.
    + now eexists.
  - intros Hrepo Hname. unfold repo_stats.
    apply falsy_false in Hname. rewrite Hname.
    destruct Hrepo as (Hne & Hrest).
    assert (Hrepo : is_repository w (get_repo_path w repo_name))
      by (split; assumption).
    apply falsy_false in Hne. rewrite Hne. unfold catch.
    rewrite (bind_run_git_command _ _ _ _ _ _ Hrepo).
    rewrite (bind_run_git_command _ _ _ _ _ _ Hrepo).
    cbv zeta.
    rewrite (bind_run_git_command _ _ _ _ _ _ Hrepo).
    unfold ret. cbn [snd]. rewrite <- !app_assoc. reflexivity.
Qed.

Lemma stats_never_raises_and_runs_three_commands_witness :
  (is_repository (Demo.world Demo.quiet)
     (get_repo_path (Demo.world Demo.quiet) (lit "demo"))
   /\ strip (lit "demo") <> [])
  /\ snd (repo_stats (Demo.world Demo.quiet) (DemoHost.host []) (lit "demo") [])
     = [] ++ [git_call (get_repo_path (Demo.world Demo.quiet) (lit "demo"))
                [lit "rev-list"; lit "--count"; lit "HEAD"];
              git_call (get_repo_path (Demo.world Demo.quiet) (lit "demo"))
                [lit "shortlog"; lit "-sn"; lit "--all"];
              git_call (get_repo_path (Demo.world Demo.quiet) (lit "demo"))
                [lit "branch"; lit "-a"]].
Proof.
  assert (Hrepo : is_repository (Demo.world Demo.quiet)
                    (get_repo_path (Demo.world Demo.quiet) (lit "demo"))).
  { split; [vm_compute; discriminate|]. split; vm_compute; reflexivity. }
  assert (Hname : strip (lit "demo") <> []) by (vm_compute; discriminate).
  split; [split; assumption|].
  exact (proj2 (stats_never_raises_and_runs_three_commands
                  (Demo.world Demo.quiet) (DemoHost.host []) (lit "demo") [])
           Hrepo Hname).
Defined.

(** X11: when the resolved path is not an existing directory, [repo_stats]
    runs nothing and still answers a statistics report: the error text
    of the executor stands for the commit count and is counted as one
    contributor and one branch. *)
Theorem stats_of_missing_directory_counts_the_error
    (w : World) (h : Host) (repo_name repo_path : str) (tr : Trace) :
  accepted w repo_name repo_path ->
  isdir w repo_path = false ->
  repo_stats w h repo_name tr
  = (Ok (lit "📊 Repository Statistics for " ++ repo_name ++ lit ":"
         ++ LF ++ LF
         ++ lit "📝 Total Commits: ❌ Error: Invalid repository path" ++ LF
         ++ lit "👥 Contributors: 1" ++ LF
         ++ lit "🌿 Branches: 1" ++ LF
         ++ LF
         ++ lit "Top Contributors:" ++ LF
         ++ lit "❌ Error: Invalid repository path"),
     tr).
Proof.
  intros Hacc Hdir.
  pose proof (accepted_nonblank w repo_name repo_path Hacc) as Hname.
  destruct Hacc as (Hpath & Hne).
  apply falsy_false in Hname, Hne.
  unfold repo_stats. rewrite Hname, Hpath, Hne.
  unfold catch, bind.
  rewrite !(run_git_command_invalid w repo_path _ GIT_TIMEOUT tr
              (or_intror Hdir)).
  unfold ret. reflexivity.
Qed.

Lemma stats_of_missing_directory_counts_the_error_witness :
  (accepted (Demo.world Demo.quiet) (lit "ghost") (lit "/repos/ghost")
   /\ isdir (Demo.world Demo.quiet) (lit "/repos/ghost") = false)
  /\ repo_stats (Demo.world Demo.quiet) (DemoHost.host []) (lit "ghost") []
     = (Ok (lit "📊 Repository Statistics for " ++ lit "ghost" ++ lit ":"
            ++ LF ++ LF
            ++ lit "📝 Total Commits: ❌ Error: Invalid repository path" ++ LF
            ++ lit "👥 Contributors: 1" ++ LF
            ++ lit "🌿 Branches: 1" ++ LF
            ++ LF
            ++ lit "Top Contributors:" ++ LF
            ++ lit "❌ Error: Invalid repository path"),
        []).
Proof.
  assert (Hacc : accepted (Demo.world Demo.quiet) (lit "ghost")
                   (lit "/repos/ghost")).
  { split; [vm_compute; reflexivity | vm_compute; discriminate]. }
  assert (Hdir : isdir (Demo.world Demo.quiet) (lit "/repos/ghost") = false)
    by (vm_compute; reflexivity).
  split; [split; assumption|].
  exact (stats_of_missing_directory_counts_the_error
           (Demo.world Demo.quiet) (DemoHost.host []) (lit "ghost")
           (lit "/repos/ghost") [] Hacc Hdir).
Defined.

(** *** [repo_search]: the output is bounded twice *)

Lemma bounded_long (output : str) :
  (MAX_OUTPUT_LENGTH < len output)%nat ->
  bounded output
  = slice_to MAX_OUTPUT_LENGTH output
    ++ (LF ++ LF ++ lit "... [Output truncated. Total: "
        ++ str_of_nat (len output) ++ lit " chars]")
  /\ len (bounded output)
     = (MAX_OUTPUT_LENGTH
        + len (LF ++ LF ++ lit "... [Output truncated. Total: "
               ++ str_of_nat (len output) ++ lit " chars]"))%nat
  /\ strip (bounded output) <> [].
Proof.
  intros Hlong.
  assert (Heq : bounded output
                = slice_to MAX_OUTPUT_LENGTH output
                  ++ (LF ++ LF ++ lit "... [Output truncated. Total: "
                      ++ str_of_nat (len output) ++ lit " chars]")).
  { unfold bounded. apply Nat.ltb_lt in Hlong. now rewrite Hlong. }
  split; [exact Heq|]. split.
  - rewrite Heq. unfold len, slice_to in *.
    rewrite length_app, length_firstn. lia.
  - apply (strip_nonblank (bounded output) 0x2E%N); [|reflexivity].
    rewrite Heq.
    apply in_or_app; right. apply in_or_app; right.
    apply in_or_app; right. apply in_or_app; left.
    vm_compute. now left.
Qed.

Lemma truncate_output_of_bounded (output : str) :
  (MAX_OUTPUT_LENGTH < len output)%nat ->
  truncate_output (bounded output)
  = slice_to MAX_OUTPUT_LENGTH output
    ++ LF ++ LF ++ lit "... [Truncated from "
    ++ str_of_nat (len (bounded output)) ++ lit " chars]".
Proof.
  intros Hlong. destruct (bounded_long output Hlong) as (Heq & Hlen & _).
  assert (Hmarker : (0 < len (LF ++ LF ++ lit "... [Output truncated. Total: "
                              ++ str_of_nat (len output) ++ lit " chars]"))%nat).
  { unfold len. rewrite length_app. change (List.length LF) with 1%nat. lia. }
  unfold truncate_output.
  assert (Hb : (MAX_OUTPUT_LENGTH <? len (bounded output))%nat = true)
    by (apply Nat.ltb_lt; lia).
  rewrite Hb. f_equal.
  rewrite Heq at 1. unfold slice_to.
  rewrite firstn_app, length_firstn.
  assert (Hmin : Nat.min MAX_OUTPUT_LENGTH (List.length output)
                 = MAX_OUTPUT_LENGTH) by (unfold len in Hlong; lia).
  rewrite Hmin, Nat.sub_diag, firstn_firstn, Nat.min_id.
  change (firstn 0 _) with (@nil char). apply app_nil_r.
Qed.

(** X12: in [repo_search], when git succeeds with more than 10000
    characters of output and the lower-cased bounded output does not
    contain [fatal:], the text shown is the first 10000 characters
    followed by the marker of [truncate_output]; the marker of the
    executor, which carried the real size, is cut away, and the size
    shown is that of the already bounded text (10000 plus the length of
    the lost marker). *)
Theorem search_marker_reports_bounded_size
    (w : World) (repo_name repo_path search_term : str) (tr : Trace)
    (stdout stderr : str) :
  accepted w repo_name repo_path ->
  is_repository w repo_path ->
  strip search_term <> [] ->
  subprocess_run w tr
    ([lit "git"; lit "-C"; repo_path]
     ++ split (lit "grep -n " ++ DQUOTE
               ++ replace (strip search_term) DQUOTE (BACKSLASH ++ DQUOTE)
               ++ DQUOTE))
    GIT_TIMEOUT
  = Completed stdout stderr 0 ->
  (MAX_OUTPUT_LENGTH < len stdout)%nat ->
  contains (str_lower (runtime w) (bounded stdout)) (lit "fatal:") = false ->
  fst (repo_search w repo_name search_term tr)
  = Ok (lit "🔍 Search results for '" ++ search_term ++ lit "' in "
        ++ repo_name ++ lit ":" ++ LF ++ LF
        ++ slice_to MAX_OUTPUT_LENGTH stdout
        ++ LF ++ LF ++ lit "... [Truncated from "
        ++ str_of_nat (len (bounded stdout)) ++ lit " chars]")
  /\ len (bounded stdout)
     = (MAX_OUTPUT_LENGTH
        + len (LF ++ LF ++ lit "... [Output truncated. Total: "
               ++ str_of_nat (len stdout) ++ lit " chars]"))%nat.
Proof.
  intros Hacc Hrepo Hterm Hrun Hlong Hfatal.
  destruct (bounded_long stdout Hlong) as (_ & Hlen & Hnonblank).
  split; [|exact Hlen].
  pose proof (accepted_nonblank w repo_name repo_path Hacc) as Hname.
  destruct Hacc as (Hpath & Hne).
  apply falsy_false in Hname, Hne, Hterm, Hnonblank.
  assert (Hcap : captured stdout stderr = stdout).
  { unfold captured. destruct stdout; [|reflexivity].
    unfold len in Hlong. simpl in Hlong. lia. }
  unfold repo_search. rewrite Hname, Hterm, Hpath, Hne. cbv zeta.
  rewrite (bind_run_git_command _ _ _ _ _ _ Hrepo).
  rewrite Hrun. unfold report_of.
  rewrite Z.eqb_refl, Hcap, Hnonblank, Hfatal, Hnonblank.
  cbn [orb]. unfold ret. cbn [fst].
  rewrite (truncate_output_of_bounded _ Hlong). reflexivity.
Qed.

Lemma search_marker_reports_bounded_size_witness :
  (accepted (Demo.world (Demo.answers (Completed (repeat 0x61%N 20000) [] 0)))
     (lit "demo") (lit "/repos/demo")
   /\ is_repository
        (Demo.world (Demo.answers (Completed (repeat 0x61%N 20000) [] 0)))
        (lit "/repos/demo")
   /\ strip (lit "a") <> []
   /\ (MAX_OUTPUT_LENGTH < len (repeat 0x61%N 20000))%nat
   /\ contains
        (str_lower
           (runtime
              (Demo.world (Demo.answers (Completed (repeat 0x61%N 20000) [] 0))))
           (bounded (repeat 0x61%N 20000)))
        (lit "fatal:") = false)
  /\ fst (repo_search
            (Demo.world (Demo.answers (Completed (repeat 0x61%N 20000) [] 0)))
            (lit "demo") (lit "a") [])
     = Ok (lit "🔍 Search results for '" ++ lit "a" ++ lit "' in "
           ++ lit "demo" ++ lit ":" ++ LF ++ LF
           ++ slice_to MAX_OUTPUT_LENGTH (repeat 0x61%N 20000)
           ++ LF ++ LF ++ lit "... [Truncated from "
           ++ str_of_nat (len (bounded (repeat 0x61%N 20000)))
           ++ lit " chars]")
  /\ str_of_nat (len (bounded (repeat 0x61%N 20000))) = lit "10044".
Proof.
  assert (Hacc : accepted
                   (Demo.world
                      (Demo.answers (Completed (repeat 0x61%N 20000) [] 0)))
                   (lit "demo") (lit "/repos/demo")).
  { split; [vm_compute; reflexivity | vm_compute; discriminate]. }
  assert (Hrepo : is_repository
                    (Demo.world
                       (Demo.answers (Completed (repeat 0x61%N 20000) [] 0)))
                    (lit "/repos/demo")).
  { split; [vm_compute; discriminate|]. split; vm_compute; reflexivity. }
  assert (Hterm : strip (lit "a") <> []) by (vm_compute; discriminate).
  assert (Hlong : (MAX_OUTPUT_LENGTH < len (repeat 0x61%N 20000))%nat).
  { apply Nat.ltb_lt. vm_compute. reflexivity. }
  assert (Hfatal : contains
                     (str_lower
                        (runtime
                           (Demo.world
                              (Demo.answers
                                 (Completed (repeat 0x61%N 20000) [] 0))))
                        (bounded (repeat 0x61%N 20000)))
                     (lit "fatal:") = false) by (vm_compute; reflexivity).
  split; [repeat (split; [assumption|]); assumption|].
  split.
  - exact (proj1 (search_marker_reports_bounded_size
                    (Demo.world
                       (Demo.answers (Completed (repeat 0x61%N 20000) [] 0)))
                    (lit "demo") (lit "/repos/demo") (lit "a") []
                    (repeat 0x61%N 20000) []
                    Hacc Hrepo Hterm eq_refl Hlong Hfatal)).
  - vm_compute. reflexivity.
Defined.

(** *** [list_repos] *)









(** *** File paths *)

Lemma lstrip_no_space (s : str) :
  Forall (fun c => isspace c = false) s -> lstrip s = s.
Proof. intros [|c t Hc _]; [reflexivity | now apply lstrip_head]. Qed.

Lemma strip_no_space (s : str) :
  Forall (fun c => isspace c = false) s -> strip s = s.
Proof.
  intros Hs. unfold strip, rstrip. rewrite (lstrip_no_space _ Hs).
  rewrite lstrip_no_space by now apply Forall_rev.
  apply rev_involutive.
Qed.

Lemma re_sub_class_none (class : char -> bool) (s : str) :
  Forall (fun c => class c = false) s -> re_sub_class class s = s.
Proof.
  unfold re_sub_class. induction 1 as [|c t Hc _ IH]; simpl; [reflexivity|].
  now rewrite Hc, IH.
Qed.

Lemma drop_dotdot_none (s : str) :
  contains s (lit "..") = false -> drop_dotdot s = s.
Proof.
  induction s as [|c t IH]; [reflexivity|].
  intros H.
  change (contains (c :: t) (lit ".."))
    with (startswith (c :: t) (lit "..") || contains t (lit "..")) in H.
  apply orb_false_iff in H. destruct H as [Hhead Htail].
  rewrite (drop_dotdot_keep _ _ Hhead). now rewrite IH.
Qed.

(** Sanitization leaves a text alone that has no whitespace, no character
    of the dangerous class and no two adjacent dots. *)
Lemma sanitize_path_fixed (s : str) :
  s <> [] ->
  Forall (fun c => isspace c = false) s ->
  Forall (fun c => dangerous c = false) s ->
  contains s (lit "..") = false ->
  sanitize_path s = s.
Proof.
  intros Hne Hsp Hd Hdots. unfold sanitize_path.
  rewrite (strip_no_space _ Hsp). apply falsy_false in Hne. rewrite Hne.
  cbn [orb]. rewrite (re_sub_class_none _ _ Hd).
  change (replace s (lit "..") []) with (drop_dotdot s).
  now apply drop_dotdot_none.
Qed.

(** X14: [repo_diff] hands the words of the sanitized file path to [git diff]
    directly after the subcommand, with no [--] before them.  None of
    these words holds a character of the dangerous class, but a word
    without whitespace, dangerous characters and adjacent dots, for
    instance one that starts with a dash, reaches git exactly as it was
    given. *)
Theorem diff_passes_file_path_words_to_git
    (w : World) (repo_name repo_path file_path : str) (tr : Trace) :
  accepted w repo_name repo_path ->
  is_repository w repo_path ->
  sanitize_path file_path <> [] ->
  snd (repo_diff w repo_name file_path tr)
  = tr ++ [git_call repo_path (lit "diff" :: split (sanitize_path file_path))]
  /\ Forall (fun word => Forall (fun c => dangerous c = false) word)
       (split (sanitize_path file_path))
  /\ (Forall (fun c => isspace c = false) file_path ->
      Forall (fun c => dangerous c = false) file_path ->
      contains file_path (lit "..") = false ->
      split (sanitize_path file_path) = [file_path]).
Proof.
  intros Hacc Hrepo Hfile.
  pose proof (accepted_nonblank w repo_name repo_path Hacc) as Hname.
  destruct Hacc as (Hpath & Hne).
  apply falsy_false in Hname, Hne.
  assert (Hfb : falsy (strip file_path) = false).
  { destruct (falsy (strip file_path)) eqn:E; [|reflexivity].
    exfalso. apply Hfile. unfold sanitize_path. rewrite E.
    now rewrite orb_true_r. }
  split; [|split].
  - unfold repo_diff. rewrite Hname, Hpath, Hne, Hfb.
    apply falsy_false in Hfile. cbn [negb]. cbv zeta. rewrite Hfile.
    rewrite snd_bind_pure.
    + rewrite run_git_command_trace by exact Hrepo. reflexivity.
    + intros result tr'.
      destruct (falsy (strip result)
                || Py.eqb result (lit "✅ Command completed successfully"));
        reflexivity.
  - apply Forall_forall. intros word Hword.
    apply Forall_forall. intros c Hc.
    apply (sanitize_path_no_dangerous file_path).
    exact (split_from_chars _ [] word c Hword Hc).
  - intros Hsp Hd Hdots.
    assert (Hnonempty : file_path <> []).
    { intros ->. now apply Hfile. }
    rewrite (sanitize_path_fixed _ Hnonempty Hsp Hd Hdots).
    now apply split_word.
Qed.

Lemma diff_passes_file_path_words_to_git_witness :
  (accepted (Demo.world Demo.quiet) (lit "demo") (lit "/repos/demo")
   /\ is_repository (Demo.world Demo.quiet) (lit "/repos/demo")
   /\ sanitize_path (lit "--output=/repos/demo/x") <> [])
  /\ snd (repo_diff (Demo.world Demo.quiet) (lit "demo")
            (lit "--output=/repos/demo/x") [])
     = [] ++ [git_call (lit "/repos/demo")
                (lit "diff" :: split (sanitize_path
                                        (lit "--output=/repos/demo/x")))]
  /\ split (sanitize_path (lit "--output=/repos/demo/x"))
     = [lit "--output=/repos/demo/x"].
Proof.
  assert (Hacc : accepted (Demo.world Demo.quiet) (lit "demo")
                   (lit "/repos/demo")).
  { split; [vm_compute; reflexivity | vm_compute; discriminate]. }
  assert (Hrepo : is_repository (Demo.world Demo.quiet) (lit "/repos/demo")).
  { split; [vm_compute; discriminate|]. split; vm_compute; reflexivity. }
  assert (Hfile : sanitize_path (lit "--output=/repos/demo/x") <> [])
    by (vm_compute; discriminate).
  split; [repeat (split; [assumption|]); assumption|].
  destruct (diff_passes_file_path_words_to_git (Demo.world Demo.quiet)
              (lit "demo") (lit "/repos/demo") (lit "--output=/repos/demo/x")
              [] Hacc Hrepo Hfile) as (Htrace & _ & Hword).
  split; [exact Htrace|].
  apply Hword.
  - assert (Hall : forallb (fun c => negb (isspace c))
                     (lit "--output=/repos/demo/x") = true)
      by (vm_compute; reflexivity).
    rewrite forallb_forall in Hall. apply Forall_forall. intros c Hc.
    apply negb_true_iff. now apply Hall.
  - assert (Hall : forallb (fun c => negb (dangerous c))
                     (lit "--output=/repos/demo/x") = true)
      by (vm_compute; reflexivity).
    rewrite forallb_forall in Hall. apply Forall_forall. intros c Hc.
    apply negb_true_iff. now apply Hall.
  - vm_compute. reflexivity.
Defined.

(** *** Arguments never hold whitespace *)

Lemma split_from_words (s cur word : str) :
  Forall (fun c => isspace c = false) cur ->
  In word (split_from cur s) ->
  word <> [] /\ Forall (fun c => isspace c = false) word.
Proof.
  revert cur. induction s as [|a s IH]; intros cur Hcur; simpl.
  - destruct cur as [|x cur]; [intros []|].
    intros [<- | []]. split.
    + intros H. apply (f_equal (@rev char)) in H.
      rewrite rev_involutive in H. discriminate.
    + now apply Forall_rev.
  - destruct (isspace a) eqn:Ha.
    + destruct cur as [|x cur].
      * apply IH. constructor.
      * intros [<- | Hin].
        -- split.
           ++ intros H. apply (f_equal (@rev char)) in H.
              rewrite rev_involutive in H. discriminate.
           ++ now apply Forall_rev.
        -- revert Hin. apply IH. constructor.
    + apply IH. now constructor.
Qed.

(** X15: whatever command text a tool builds, each argument the executor
    passes to git after [-C repo_path] is non-empty and free of
    whitespace: a value that holds a blank cannot reach git as one
    argument. *)
Theorem executor_arguments_hold_no_whitespace
    (w : World) (repo_path args : str) (timeout : Z) (tr : Trace) :
  exists tokens,
    (snd (run_git_command w repo_path args timeout tr) = tr
     \/ snd (run_git_command w repo_path args timeout tr)
        = tr ++ [{| argv := [lit "git"; lit "-C"; repo_path] ++ tokens;
                    timeout_of := timeout |}])
    /\ Forall (fun word => word <> []
                           /\ Forall (fun c => isspace c = false) word)
         tokens.
Proof.
  exists (split args). split.
  - destruct (run_git_command_trace_cases w repo_path args timeout tr)
      as [(_ & H) | (_ & H)]; [now right | now left].
  - apply Forall_forall. intros word Hin.
    exact (split_from_words args [] word (Forall_nil _) Hin).
Qed.

(** *** The size in a truncation marker *)

Lemma decimal_value_from_acc (u : Decimal.uint) (acc : positive) :
  decimal_value_from (N.pos acc) (uint_chars u)
  = Some (N.pos (Pos.of_uint_acc u acc)).
Proof.
  revert acc.
  induction u as [|u IH|u IH|u IH|u IH|u IH|u IH|u IH|u IH|u IH|u IH];
    intros acc; cbn [uint_chars decimal_value_from Pos.of_uint_acc];
    [reflexivity|..];
    match goal with
    | |- (if ?b then _ else _) = _ => change b with true; cbv iota
    end;
    match goal with
    | |- decimal_value_from ?a _ = Some (N.pos (Pos.of_uint_acc _ ?b)) =>
      replace a with (N.pos b) by lia
    end;
    apply IH.
Qed.

Lemma decimal_value_from_zero (u : Decimal.uint) :
  decimal_value_from 0 (uint_chars u) = Some (Pos.of_uint u).
Proof.
  induction u as [|u IH|u IH|u IH|u IH|u IH|u IH|u IH|u IH|u IH|u IH];
    cbn [uint_chars decimal_value_from Pos.of_uint];
    [reflexivity|..];
    match goal with
    | |- (if ?b then _ else _) = _ => change b with true; cbv iota
    end;
    [exact IH|..]; apply decimal_value_from_acc.
Qed.

Lemma uint_chars_nonempty (u : Decimal.uint) :
  u <> Decimal.Nil -> uint_chars u <> [].
Proof. destruct u; intros H; [now contradiction H|..]; discriminate. Qed.

(** The digits [str] writes for a length denote that length. *)
Lemma decimal_value_str_of_nat (n : nat) :
  decimal_value (str_of_nat n) = Some (N.of_nat n).
Proof.
  destruct n as [|n]; [reflexivity|].
  unfold str_of_nat, str_of_int.
  change (Z.to_int (Z.of_nat (S n)))
    with (Decimal.Pos (Pos.to_uint (Pos.of_succ_nat n))).
  cbv iota. unfold decimal_value.
  pose proof (uint_chars_nonempty _
                (DecimalPos.Unsigned.to_uint_nonnil (Pos.of_succ_nat n)))
    as Hne.
  destruct (uint_chars (Pos.to_uint (Pos.of_succ_nat n))) as [|c t] eqn:E;
    [now contradiction Hne|].
  rewrite <- E, decimal_value_from_zero, DecimalPos.Unsigned.of_to.
  reflexivity.
Qed.

(** C7: a captured output longer than the cap of 10000 characters is cut
    to exactly its first 10000 characters and a marker is appended whose
    digits denote the original length; an output of at most 10000
    characters is left as it is.  [truncate_output] does so for every
    text; [run_git_command] does so for the text it captured (standard
    output, or standard error when that is empty) before it returns it,
    alone when git exits with status 0 and after the status line when it
    does not. *)
Theorem output_bounded_at_cap :
  MAX_OUTPUT_LENGTH = 10000%nat
  /\ (forall output : str,
        ((MAX_OUTPUT_LENGTH < len output)%nat ->
         exists kept rest size,
           output = kept ++ rest
           /\ len kept = MAX_OUTPUT_LENGTH
           /\ decimal_value size = Some (N.of_nat (len output))
           /\ truncate_output output
              = kept ++ LF ++ LF ++ lit "... [Truncated from " ++ size
                ++ lit " chars]")
        /\ ((len output <= MAX_OUTPUT_LENGTH)%nat ->
            truncate_output output = output))
  /\ (forall (w : World) (repo_path args : str) (timeout : Z) (tr : Trace)
             (stdout stderr : str) (returncode : Z),
        is_repository w repo_path ->
        subprocess_run w tr ([lit "git"; lit "-C"; repo_path] ++ split args)
          timeout
        = Completed stdout stderr returncode ->
        ((MAX_OUTPUT_LENGTH < len (captured stdout stderr))%nat ->
         exists kept rest size,
           captured stdout stderr = kept ++ rest
           /\ len kept = MAX_OUTPUT_LENGTH
           /\ decimal_value size
              = Some (N.of_nat (len (captured stdout stderr)))
           /\ (returncode = 0%Z ->
               fst (run_git_command w repo_path args timeout tr)
               = Ok (kept ++ LF ++ LF ++ lit "... [Output truncated. Total: "
                     ++ size ++ lit " chars]"))
           /\ (returncode <> 0%Z ->
               fst (run_git_command w repo_path args timeout tr)
               = Ok (lit "⚠️ Git command completed with status "
                     ++ str_of_int returncode ++ lit ":" ++ LF
                     ++ kept ++ LF ++ LF
                     ++ lit "... [Output truncated. Total: "
                     ++ size ++ lit " chars]")))
        /\ ((len (captured stdout stderr) <= MAX_OUTPUT_LENGTH)%nat ->
            (returncode = 0%Z -> strip (captured stdout stderr) <> [] ->
             fst (run_git_command w repo_path args timeout tr)
             = Ok (captured stdout stderr))
            /\ (returncode <> 0%Z ->
                fst (run_git_command w repo_path args timeout tr)
                = Ok (lit "⚠️ Git command completed with status "
                      ++ str_of_int returncode ++ lit ":" ++ LF
                      ++ captured stdout stderr)))).
Proof.
  assert (Hkept : forall output : str,
             (MAX_OUTPUT_LENGTH < len output)%nat ->
             output = slice_to MAX_OUTPUT_LENGTH output
                      ++ skipn MAX_OUTPUT_LENGTH output
             /\ len (slice_to MAX_OUTPUT_LENGTH output) = MAX_OUTPUT_LENGTH).
  { intros output Hlong. unfold slice_to. split.
    - now rewrite firstn_skipn.
    - unfold len in *. rewrite length_firstn. lia. }
  split; [reflexivity|]. split.
  - intros output. split.
    + intros Hlong. destruct (Hkept output Hlong) as (Hsplit & Hlen).
      exists (slice_to MAX_OUTPUT_LENGTH output),
             (skipn MAX_OUTPUT_LENGTH output), (str_of_nat (len output)).
      split; [exact Hsplit|]. split; [exact Hlen|].
      split; [apply decimal_value_str_of_nat|].
      unfold truncate_output. apply Nat.ltb_lt in Hlong. now rewrite Hlong.
    + intros Hshort. apply Nat.ltb_ge in Hshort.
      unfold truncate_output. now rewrite Hshort.
  - intros w repo_path args timeout tr stdout stderr returncode Hrepo Hrun.
    pose proof (run_git_command_completed w repo_path args timeout tr
                  stdout stderr returncode Hrepo Hrun) as Hfst.
    cbv zeta in Hfst. split.
    + intros Hlong.
      destruct (Hkept _ Hlong) as (Hsplit & Hlen).
      destruct (bounded_long _ Hlong) as (Hb & _ & Hnonblank).
      exists (slice_to MAX_OUTPUT_LENGTH (captured stdout stderr)),
             (skipn MAX_OUTPUT_LENGTH (captured stdout stderr)),
             (str_of_nat (len (captured stdout stderr))).
      split; [exact Hsplit|]. split; [exact Hlen|].
      split; [apply decimal_value_str_of_nat|]. split.
      * intros ->. rewrite Hfst. apply falsy_false in Hnonblank.
        rewrite Z.eqb_refl, Hnonblank, Hb. reflexivity.
      * intros Hrc. apply Z.eqb_neq in Hrc.
        rewrite Hfst, Hrc, Hb. reflexivity.
    + intros Hshort. rewrite (bounded_short _ Hshort) in Hfst. split.
      * intros -> Hout. apply falsy_false in Hout.
        now rewrite Hfst, Z.eqb_refl, Hout.
      * intros Hrc. apply Z.eqb_neq in Hrc. now rewrite Hfst, Hrc.
Qed.

Lemma output_bounded_at_cap_witness :
  ((MAX_OUTPUT_LENGTH < len (repeat 0x61%N 10001))%nat
   /\ exists kept rest size,
        repeat 0x61%N 10001 = kept ++ rest
        /\ len kept = MAX_OUTPUT_LENGTH
        /\ decimal_value size = Some (N.of_nat (len (repeat 0x61%N 10001)))
        /\ truncate_output (repeat 0x61%N 10001)
           = kept ++ LF ++ LF ++ lit "... [Truncated from " ++ size
             ++ lit " chars]")
  /\ ((len (repeat 0x61%N 10000) <= MAX_OUTPUT_LENGTH)%nat
      /\ truncate_output (repeat 0x61%N 10000) = repeat 0x61%N 10000)
  /\ (is_repository
        (Demo.world (Demo.answers (Completed (repeat 0x61%N 10001) [] 0)))
        (lit "/repos/demo")
      /\ (MAX_OUTPUT_LENGTH < len (captured (repeat 0x61%N 10001) []))%nat
      /\ exists kept rest size,
           captured (repeat 0x61%N 10001) [] = kept ++ rest
           /\ len kept = MAX_OUTPUT_LENGTH
           /\ decimal_value size
              = Some (N.of_nat (len (captured (repeat 0x61%N 10001) [])))
           /\ fst (run_git_command
                     (Demo.world
                        (Demo.answers (Completed (repeat 0x61%N 10001) [] 0)))
                     (lit "/repos/demo") (lit "status") GIT_TIMEOUT [])
              = Ok (kept ++ LF ++ LF ++ lit "... [Output truncated. Total: "
                    ++ size ++ lit " chars]"))
  /\ fst (run_git_command
            (Demo.world (Demo.answers (Completed (repeat 0x61%N 10001) [] 0)))
            (lit "/repos/demo") (lit "status") GIT_TIMEOUT [])
     = Ok (repeat 0x61%N 10000 ++ LF ++ LF
           ++ lit "... [Output truncated. Total: 10001 chars]").
Proof.
  assert (Hlong : (MAX_OUTPUT_LENGTH < len (repeat 0x61%N 10001))%nat).
  { apply Nat.ltb_lt. vm_compute. reflexivity. }
  assert (Hshort : (len (repeat 0x61%N 10000) <= MAX_OUTPUT_LENGTH)%nat).
  { apply Nat.leb_le. vm_compute. reflexivity. }
  assert (Hrepo : is_repository
                    (Demo.world
                       (Demo.answers (Completed (repeat 0x61%N 10001) [] 0)))
                    (lit "/repos/demo")).
  { split; [vm_compute; discriminate|]. split; vm_compute; reflexivity. }
  assert (Hcap : (MAX_OUTPUT_LENGTH
                  < len (captured (repeat 0x61%N 10001) []))%nat).
  { apply Nat.ltb_lt. vm_compute. reflexivity. }
  destruct output_bounded_at_cap as (_ & Htrunc & Hrun).
  split; [|split; [|split]].
  - split; [exact Hlong|].
    exact (proj1 (Htrunc (repeat 0x61%N 10001)) Hlong).
  - split; [exact Hshort|].
    exact (proj2 (Htrunc (repeat 0x61%N 10000)) Hshort).
  - split; [exact Hrepo|]. split; [exact Hcap|].
    destruct (proj1 (Hrun (Demo.world
                             (Demo.answers
                                (Completed (repeat 0x61%N 10001) [] 0)))
                       (lit "/repos/demo") (lit "status") GIT_TIMEOUT []
                       (repeat 0x61%N 10001) [] 0%Z Hrepo eq_refl) Hcap)
      as (kept & rest & size & Hsplit & Hlen & Hsize & Hzero & _).
    exists kept, rest, size.
    split; [exact Hsplit|]. split; [exact Hlen|]. split; [exact Hsize|].
    exact (Hzero eq_refl).
  - vm_compute. reflexivity.
Defined.

(** *** The hash filter against the words of the specification *)

Lemma is_hex_digit_cases (c : char) :
  is_hex_digit c = true <->
  (0x30 <= c <= 0x39 \/ 0x41 <= c <= 0x46 \/ 0x61 <= c <= 0x66)%N.
Proof.
  unfold is_hex_digit.
  let l := eval vm_compute in (lit "0123456789abcdefABCDEF") in
  change (lit "0123456789abcdefABCDEF") with l.
  cbn [existsb]. split.
  - intros E. bool_cases E; try discriminate; subst; lia.
  - intros H.
    assert (Hc : (c = 48 \/ c = 49 \/ c = 50 \/ c = 51 \/ c = 52 \/ c = 53
                  \/ c = 54 \/ c = 55 \/ c = 56 \/ c = 57
                  \/ c = 65 \/ c = 66 \/ c = 67 \/ c = 68 \/ c = 69 \/ c = 70
                  \/ c = 97 \/ c = 98 \/ c = 99 \/ c = 100 \/ c = 101
                  \/ c = 102)%N) by lia.
    repeat (destruct Hc as [-> | Hc]; [reflexivity|]).
    subst. reflexivity.
Qed.

(** The class of line 279 keeps exactly the hexadecimal characters. *)
Lemma not_hex_is_hex_digit (c : char) : negb (not_hex c) = is_hex_digit c.
Proof.
  destruct (is_hex_digit c) eqn:E.
  - apply is_hex_digit_cases in E. unfold not_hex.
    rewrite negb_involutive.
    destruct E as [[? ?] | [[? ?] | [? ?]]];
      repeat match goal with
             | H : (_ <= _)%N |- _ => apply N.leb_le in H; rewrite H
             end;
      cbn [andb orb]; rewrite ?orb_true_r; reflexivity.
  - destruct (negb (not_hex c)) eqn:Hn; [|reflexivity].
    assert (Hh : is_hex_digit c = true).
    { apply is_hex_digit_cases. unfold not_hex in Hn.
      rewrite negb_involutive in Hn. bool_cases Hn; lia. }
    congruence.
Qed.

Lemma filter_lstrip (p : char -> bool) (s : str) :
  (forall c, p c = true -> isspace c = false) ->
  filter p (lstrip s) = filter p s.
Proof.
  intros Hp. induction s as [|c s IH]; [reflexivity|].
  cbn [lstrip]. destruct (isspace c) eqn:Hc; [|reflexivity].
  cbn [filter]. destruct (p c) eqn:Hpc; [|exact IH].
  apply Hp in Hpc. congruence.
Qed.

Lemma filter_strip (p : char -> bool) (s : str) :
  (forall c, p c = true -> isspace c = false) ->
  filter p (strip s) = filter p s.
Proof.
  intros Hp. unfold strip, rstrip.
  rewrite filter_rev, (filter_lstrip _ _ Hp), filter_rev, rev_involutive.
  now apply filter_lstrip.
Qed.

(** What [repo_show_commit] computes from the hash (strip, then drop
    what is outside [a-fA-F0-9]) is the text of its hexadecimal
    characters. *)
Lemma sanitized_hash_is_hex_characters (commit_hash : str) :
  re_sub_class not_hex (strip commit_hash) = hex_characters commit_hash.
Proof.
  unfold re_sub_class, hex_characters.
  rewrite (filter_ext _ _ not_hex_is_hex_digit).
  apply filter_strip. intros c Hc.
  apply hex_not_space. rewrite <- not_hex_is_hex_digit in Hc.
  now apply negb_true_iff in Hc.
Qed.

(** C9: [repo_show_commit] filters the commit hash to its hexadecimal
    characters before use.  For every hash that is not blank: if it has
    hexadecimal characters, git is run on [show] followed by exactly
    these characters as one argument, and the answer names the commit by
    them; if it has none, the answer is the invalid-format error and git
    is not run.  So [abc123!!] is used as [abc123], and [!!!] is
    rejected. *)
Theorem commit_hash_filtered_to_hex
    (w : World) (repo_name repo_path commit_hash : str) (tr : Trace) :
  accepted w repo_name repo_path ->
  strip commit_hash <> [] ->
  (hex_characters commit_hash <> [] ->
   repo_show_commit w repo_name commit_hash tr
   = bind (run_git_command w repo_path
             (lit "show " ++ hex_characters commit_hash) GIT_TIMEOUT)
          (fun result =>
             ret (lit "📝 Commit " ++ hex_characters commit_hash
                  ++ lit " in " ++ repo_name ++ lit ":" ++ LF ++ LF
                  ++ result))
          tr
   /\ (is_repository w repo_path ->
       snd (repo_show_commit w repo_name commit_hash tr)
       = tr ++ [git_call repo_path
                  [lit "show"; hex_characters commit_hash]]))
  /\ (hex_characters commit_hash = [] ->
      repo_show_commit w repo_name commit_hash tr
      = (Ok (lit "❌ Error: Invalid commit hash format"), tr))
  /\ hex_characters (lit "abc123!!") = lit "abc123"
  /\ repo_show_commit w repo_name (lit "abc123!!") tr
     = bind (run_git_command w repo_path (lit "show abc123") GIT_TIMEOUT)
            (fun result =>
               ret (lit "📝 Commit abc123 in " ++ repo_name
                    ++ lit ":" ++ LF ++ LF ++ result))
            tr
  /\ (is_repository w repo_path ->
      snd (repo_show_commit w repo_name (lit "abc123!!") tr)
      = tr ++ [git_call repo_path [lit "show"; lit "abc123"]])
  /\ hex_characters (lit "!!!") = []
  /\ repo_show_commit w repo_name (lit "!!!") tr
     = (Ok (lit "❌ Error: Invalid commit hash format"), tr).
Proof.
  intros Hacc Hhash.
  assert (Hgen : forall h : str,
             strip h <> [] -> hex_characters h <> [] ->
             repo_show_commit w repo_name h tr
             = bind (run_git_command w repo_path
                       (lit "show " ++ hex_characters h) GIT_TIMEOUT)
                    (fun result =>
                       ret (lit "📝 Commit " ++ hex_characters h
                            ++ lit " in " ++ repo_name ++ lit ":" ++ LF ++ LF
                            ++ result))
                    tr
             /\ (is_repository w repo_path ->
                 snd (repo_show_commit w repo_name h tr)
                 = tr ++ [git_call repo_path [lit "show"; hex_characters h]])).
  { intros h Hh Hhex.
    assert (Hrun : repo_show_commit w repo_name h tr
                   = bind (run_git_command w repo_path
                             (lit "show " ++ hex_characters h) GIT_TIMEOUT)
                          (fun result =>
                             ret (lit "📝 Commit " ++ hex_characters h
                                  ++ lit " in " ++ repo_name ++ lit ":"
                                  ++ LF ++ LF ++ result))
                          tr).
    { rewrite (repo_show_commit_run w repo_name repo_path tr Hacc h Hh);
        rewrite sanitized_hash_is_hex_characters; [reflexivity | exact Hhex]. }
    split; [exact Hrun|].
    intros Hrepo. rewrite Hrun, snd_bind_ret.
    rewrite run_git_command_trace by exact Hrepo.
    change (split (lit "show " ++ hex_characters h))
      with (lit "show" :: split (hex_characters h)).
    rewrite (split_word _ Hhex); [reflexivity|].
    apply Forall_forall. intros c Hc. unfold hex_characters in Hc.
    apply filter_In in Hc. destruct Hc as [_ Hc].
    apply hex_not_space. rewrite <- not_hex_is_hex_digit in Hc.
    now apply negb_true_iff in Hc. }
  assert (Hnone : forall h : str,
             strip h <> [] -> hex_characters h = [] ->
             repo_show_commit w repo_name h tr
             = (Ok (lit "❌ Error: Invalid commit hash format"), tr)).
  { intros h Hh Hhex.
    apply (repo_show_commit_no_hex w repo_name repo_path tr Hacc h Hh).
    now rewrite sanitized_hash_is_hex_characters. }
  assert (Habc : strip (lit "abc123!!") <> []) by (vm_compute; discriminate).
  assert (Habc_hex : hex_characters (lit "abc123!!") = lit "abc123")
    by (vm_compute; reflexivity).
  assert (Habc_ne : hex_characters (lit "abc123!!") <> [])
    by (vm_compute; discriminate).
  assert (Hbang : strip (lit "!!!") <> []) by (vm_compute; discriminate).
  assert (Hbang_hex : hex_characters (lit "!!!") = [])
    by (vm_compute; reflexivity).
  destruct (Hgen (lit "abc123!!") Habc Habc_ne) as (Habc_run & Habc_trace).
  rewrite Habc_hex in Habc_run, Habc_trace.
  split; [intros Hhex; now apply Hgen|].
  split; [intros Hhex; now apply Hnone|].
  split; [exact Habc_hex|].
  split; [exact Habc_run|].
  split; [exact Habc_trace|].
  split; [exact Hbang_hex|].
  now apply Hnone.
Qed.

Lemma commit_hash_filtered_to_hex_witness :
  (accepted (Demo.world Demo.quiet) (lit "demo") (lit "/repos/demo")
   /\ strip (lit " dead-BEEF 42xyz ") <> []
   /\ hex_characters (lit " dead-BEEF 42xyz ") <> []
   /\ is_repository (Demo.world Demo.quiet) (lit "/repos/demo"))
  /\ hex_characters (lit " dead-BEEF 42xyz ") = lit "deadBEEF42"
  /\ snd (repo_show_commit (Demo.world Demo.quiet) (lit "demo")
            (lit " dead-BEEF 42xyz ") [])
     = [] ++ [git_call (lit "/repos/demo")
                [lit "show"; hex_characters (lit " dead-BEEF 42xyz ")]]
  /\ snd (repo_show_commit (Demo.world Demo.quiet) (lit "demo")
            (lit "abc123!!") [])
     = [] ++ [git_call (lit "/repos/demo") [lit "show"; lit "abc123"]]
  /\ repo_show_commit (Demo.world Demo.quiet) (lit "demo") (lit "!!!") []
     = (Ok (lit "❌ Error: Invalid commit hash format"), []).
Proof.
  assert (Hacc : accepted (Demo.world Demo.quiet) (lit "demo")
                   (lit "/repos/demo")).
  { split; [vm_compute; reflexivity | vm_compute; discriminate]. }
  assert (Hrepo : is_repository (Demo.world Demo.quiet) (lit "/repos/demo")).
  { split; [vm_compute; discriminate|]. split; vm_compute; reflexivity. }
  assert (Hhash : strip (lit " dead-BEEF 42xyz ") <> [])
    by (vm_compute; discriminate).
  assert (Hhex : hex_characters (lit " dead-BEEF 42xyz ") <> [])
    by (vm_compute; discriminate).
  split; [repeat (split; [assumption|]); assumption|].
  split; [vm_compute; reflexivity|].
  destruct (commit_hash_filtered_to_hex (Demo.world Demo.quiet) (lit "demo")
              (lit "/repos/demo") (lit " dead-BEEF 42xyz ") [] Hacc Hhash)
    as (Hsome & _ & _ & _ & Habc & _ & Hbang).
  split; [exact (proj2 (Hsome Hhex) Hrepo)|].
  split; [exact (Habc Hrepo) | exact Hbang].
Defined.
